(** * hls-maker: [VideoConverter.hlsConvert] (src/main.ts)

    A shallow embedding of the orchestration code of [hlsConvert]: the
    choice of the working quality catalog, the per-profile field check,
    the resolution of the requested quality names, the checks on the
    input file and the output folders, the fan-out of one ffmpeg job per
    quality, and the text of the master playlist.

    JavaScript values are modelled as far as the code inspects them;
    Node's [fs], [path], [uuid] and fluent-ffmpeg are collaborators whose
    answers are read from a [World]. *)

From Stdlib Require Import String Ascii List ZArith Lia Bool DecimalString.
From Stdlib Require Import QArith Qround Sorted.
Close Scope Q_scope.
Import ListNotations.
Open Scope string_scope.
Open Scope list_scope.

(** ** JavaScript values and primitives used by the source *)

Module Js.

(** The run-time values an element of [resolutionArray] or a property
    of a quality object can be.  [VNumber n] is the integer-valued
    Number [n]; strings are sequences of code units below 256. *)
Inductive value :=
| VUndefined
| VNull
| VBoolean (b : bool)
| VNumber (n : Z)
| VString (s : string).

(** A property of an object typed [string] by the interface: [None]
    when the object does not carry it (reading it gives [undefined]). *)
Definition of_field (f : option string) : value :=
  match f with
  | Some s => VString s
  | None => VUndefined
  end.

(** [typeof v === 'string'] *)
Definition typeof_string (v : value) : bool :=
  match v with
  | VString _ => true
  | _ => false
  end.

(** Truthiness of a string-typed property: [!f] is [negb (truthy f)]. *)
Definition truthy (f : option string) : bool :=
  match f with
  | Some s => negb (s =? "")%string
  | None => false
  end.

(** [a === b] *)
Definition strict_eq (a b : value) : bool :=
  match a, b with
  | VUndefined, VUndefined => true
  | VNull, VNull => true
  | VBoolean x, VBoolean y => Bool.eqb x y
  | VNumber x, VNumber y => (x =? y)%Z
  | VString x, VString y => (x =? y)%string
  | _, _ => false
  end.

(** [l.includes(v)]: SameValueZero, which is [===] on these values. *)
Definition includes (l : list value) (v : value) : bool :=
  existsb (fun x => strict_eq x v) l.

(** Decimal text of an integer, as [String(n)] prints an integer-valued
    Number of magnitude below 10^21. *)
Definition decimal (z : Z) : string :=
  NilZero.string_of_int (Z.to_int z).

(** [String(v)], the conversion a template literal applies. *)
Definition to_string (v : value) : string :=
  match v with
  | VUndefined => "undefined"
  | VNull => "null"
  | VBoolean true => "true"
  | VBoolean false => "false"
  | VNumber n => decimal n
  | VString s => s
  end.

(** The text [Array.prototype.join] uses for an element: [undefined]
    and [null] contribute the empty string. *)
Definition join_text (v : value) : string :=
  match v with
  | VUndefined | VNull => ""
  | _ => to_string v
  end.

(** [l.join(sep)] *)
Definition join (sep : string) (l : list value) : string :=
  String.concat sep (map join_text l).

(** The result of a numeric expression.  A Number is a double: [Int z]
    is the integer [z], tracked while [|z| <= 2^53] (every such integer
    is a double, and sums and products that stay in the range are
    exact); [Inexact] is any Number the model does not determine. *)
Inductive number :=
| NaN
| Int (z : Z)
| Inexact.

Definition exact (z : Z) : number :=
  if (Z.abs z <=? 2 ^ 53)%Z then Int z else Inexact.

(** [a * b] *)
Definition mul (a b : number) : number :=
  match a, b with
  | NaN, _ | _, NaN => NaN
  | Int x, Int y => exact (x * y)
  | _, _ => Inexact
  end.

(** White space and line terminators among the code units below 256:
    TAB, LF, VT, FF, CR, SP and NBSP. *)
Definition is_white_space (c : ascii) : bool :=
  let n := nat_of_ascii c in
  ((n =? 9) || (n =? 10) || (n =? 11) || (n =? 12) || (n =? 13)
   || (n =? 32) || (n =? 160))%nat.

Fixpoint trim_start (s : string) : string :=
  match s with
  | String c s' => if is_white_space c then trim_start s' else s
  | EmptyString => EmptyString
  end.

(** [c] is one of 0-9. *)
Definition is_decimal_digit (c : ascii) : bool :=
  let n := Z.of_nat (nat_of_ascii c) in
  (48 <=? n)%Z && (n <=? 57)%Z.

(** The value of [c] as a digit of the given radix: 0-9, then a-z or
    A-Z for 10 and up. *)
Definition digit_value (radix : Z) (c : ascii) : option Z :=
  let n := Z.of_nat (nat_of_ascii c) in
  let v :=
    if (48 <=? n)%Z && (n <=? 57)%Z then (n - 48)%Z
    else if (97 <=? n)%Z && (n <=? 122)%Z then (n - 87)%Z
    else if (65 <=? n)%Z && (n <=? 90)%Z then (n - 55)%Z
    else radix in
  if (v <? radix)%Z then Some v else None.

(** The integer written by the longest prefix of [s] made of digits of
    the radix; [acc] is [None] until a digit has been read. *)
Fixpoint digits (radix : Z) (s : string) (acc : option Z) : option Z :=
  match s with
  | String c s' =>
      match digit_value radix c with
      | Some d =>
          digits radix s'
            (Some (radix * match acc with Some a => a | None => 0 end + d)%Z)
      | None => acc
      end
  | EmptyString => acc
  end.

(** The first two code units are [0x] or [0X]. *)
Definition hex_prefix (s : string) : bool :=
  match s with
  | String c1 (String c2 _) =>
      (c1 =? "0")%char && ((c2 =? "x")%char || (c2 =? "X")%char)
  | _ => false
  end.

(** [s] without its first two code units. *)
Definition drop2 (s : string) : string :=
  match s with
  | String _ (String _ s') => s'
  | _ => s
  end.

(** [parseInt(input)] with no radix argument (ECMA-262, 19.2.5): skip
    leading white space, read a sign, switch to radix 16 after [0x] or
    [0X], read the digits; [NaN] when there is none. *)
Definition parseInt (input : string) : number :=
  let s := trim_start input in
  let sign :=
    match s with
    | String c _ => if (c =? "-")%char then (-1)%Z else 1%Z
    | EmptyString => 1%Z
    end in
  let s :=
    match s with
    | String c s' => if (c =? "-")%char || (c =? "+")%char then s' else s
    | EmptyString => s
    end in
  let '(radix, s) :=
    if hex_prefix s then (16%Z, drop2 s) else (10%Z, s) in
  match digits radix s None with
  | None => NaN
  | Some m => exact (sign * m)
  end.

End Js.

Import Js.

(** ** The data model *)

(** [interface Quality] (lines 7-15).  The interface is erased at run
    time and the code tests each property for truthiness (line 109), so a
    property can be absent. *)
Record Quality := {
  resolution : option string;
  bitrate : option string;
  maxrate : option string;
  bufsize : option string;
  file : option string;
  name : option string;
  segments : option string
}.

Definition mkQuality (r b m bs f n s : string) : Quality :=
  {| resolution := Some r; bitrate := Some b; maxrate := Some m;
     bufsize := Some bs; file := Some f; name := Some n; segments := Some s |}.

(** The built-in ladder (lines 90-104). *)
Definition default_quality : list Quality := [
  mkQuality "120x68" "100k" "107k" "150k" "120p.m3u8" "120" "120p_%03d.ts";
  mkQuality "160x90" "150k" "160k" "200k" "160p.m3u8" "160" "160p_%03d.ts";
  mkQuality "240x135" "200k" "214k" "300k" "240p.m3u8" "240" "240p_%03d.ts";
  mkQuality "320x180" "350k" "375k" "500k" "180p.m3u8" "180" "180p_%03d.ts";
  mkQuality "426x240" "400k" "428k" "600k" "240p_wide.m3u8" "240w" "240pw_%03d.ts";
  mkQuality "480x270" "500k" "535k" "750k" "270p.m3u8" "270" "270p_%03d.ts";
  mkQuality "640x360" "800k" "856k" "1200k" "360p.m3u8" "360" "360p_%03d.ts";
  mkQuality "854x480" "1400k" "1498k" "2100k" "480p.m3u8" "480" "480p_%03d.ts";
  mkQuality "960x540" "2000k" "2140k" "3000k" "540p.m3u8" "540" "540p_%03d.ts";
  mkQuality "1280x720" "2800k" "2996k" "4200k" "720p.m3u8" "720" "720p_%03d.ts";
  mkQuality "1920x1080" "5000k" "5350k" "7500k" "1080p.m3u8" "1080" "1080p_%03d.ts";
  mkQuality "2560x1440" "8000k" "8560k" "12000k" "1440p.m3u8" "1440" "1440p_%03d.ts";
  mkQuality "3840x2160" "14000k" "14980k" "21000k" "2160p.m3u8" "2160" "2160p_%03d.ts"
].

(** The places where the call is rejected, one constructor per place. *)
Inductive Failure :=
| MissingFields                      (* line 110 *)
| BadResolutionArray                 (* line 122 *)
| NonStringResolution                (* line 126 *)
| ResolutionNotString (res : value)  (* line 132, thrown *)
| ResolutionNoMatch (res : value) (names : list value)  (* line 135, thrown *)
| NoValidResolutions                 (* line 145 *)
| FileNameRequired                   (* line 148 *)
| InputMissing (inputPath : string)  (* line 153 *)
| FsException (err : string)         (* fs.mkdirSync / fs.writeFileSync throw *)
| EncoderError (err : string).       (* line 221 *)

(** The [message] of the rejection value. *)
Definition message (f : Failure) : string :=
  match f with
  | MissingFields =>
      "Each quality object must have resolution, bitrate, maxrate, bufsize, file, name, and segments properties."
  | BadResolutionArray =>
      "Invalid resolution array provided. It should be an array of strings."
  | NonStringResolution =>
      "All elements in the resolution array must be strings."
  | ResolutionNotString res =>
      "Invalid resolution name: " ++ to_string res ++ ". It should be a string."
  | ResolutionNoMatch res names =>
      "Invalid resolution name: " ++ to_string res
      ++ ". It does not match any quality name. Valid names are "
      ++ join ", " names ++ "."
  | NoValidResolutions => "No valid resolutions provided for conversion."
  | FileNameRequired => "Input file name is required."
  | InputMissing inputPath => "Input file does not exist: " ++ inputPath
  | FsException err => err
  | EncoderError err => err
  end.

(** Whether the rejection value is an [Error] that was thrown (lines 132
    and 135, and what the collaborators raise) or the plain object
    [{ message }] passed to [Promise.reject]. *)
Definition thrown (f : Failure) : bool :=
  match f with
  | ResolutionNotString _ | ResolutionNoMatch _ _
  | FsException _ | EncoderError _ => true
  | _ => false
  end.

(** The error classes of the specification (section 7).  The rejection of
    an empty file name has no class there; it is [EmptySourceName]. *)
Inductive ErrorKind :=
| InvalidProfile
| InvalidRequest
| EmptySelection
| EmptySourceName
| SourceNotFound
| IOFailure
| EncodeFailure.

Definition kind (f : Failure) : ErrorKind :=
  match f with
  | MissingFields => InvalidProfile
  | BadResolutionArray | NonStringResolution
  | ResolutionNotString _ | ResolutionNoMatch _ _ => InvalidRequest
  | NoValidResolutions => EmptySelection
  | FileNameRequired => EmptySourceName
  | InputMissing _ => SourceNotFound
  | FsException _ => IOFailure
  | EncoderError _ => EncodeFailure
  end.

Definition ErrorKind_eqb (a b : ErrorKind) : bool :=
  match a, b with
  | InvalidProfile, InvalidProfile
  | InvalidRequest, InvalidRequest
  | EmptySelection, EmptySelection
  | EmptySourceName, EmptySourceName
  | SourceNotFound, SourceNotFound
  | IOFailure, IOFailure
  | EncodeFailure, EncodeFailure => true
  | _, _ => false
  end.

Inductive result (A : Type) :=
| Ok (a : A)
| Err (f : Failure).
Arguments Ok {A} a.
Arguments Err {A} f.

(** [fails_as k r]: [r] is a rejection of class [k]. *)
Definition fails_as {A} (k : ErrorKind) (r : result A) : bool :=
  match r with
  | Ok _ => false
  | Err f => ErrorKind_eqb (kind f) k
  end.

(** ** The quality catalog (lines 84-112) *)

(** Lines 84-105: [quality] starts as [[]] and receives the built-in
    ladder when [qualityArray] is absent or empty; no other assignment
    to [quality] exists. *)
Definition catalog_in_use (qualityArray : option (list Quality)) : list Quality :=
  match qualityArray with
  | None | Some [] => default_quality
  | Some (_ :: _) => []
  end.

(** The test of line 109. *)
Definition lacks_field (q : Quality) : bool :=
  negb (truthy (resolution q)) || negb (truthy (bitrate q))
  || negb (truthy (maxrate q)) || negb (truthy (bufsize q))
  || negb (truthy (file q)) || negb (truthy (name q))
  || negb (truthy (segments q)).

(** Lines 108-112: the callback of [forEach] returns a rejected promise
    for a profile that lacks a field; [forEach] discards what its
    callback returns, so the loop only leaves those promises behind.
    The result lists them; the call goes on. *)
Definition validate (quality : list Quality) : list Failure :=
  flat_map (fun q => if lacks_field q then [MissingFields] else []) quality.

(** ** Subset resolution (lines 114-146) *)

Definition default_resolution : list value :=
  [VString "120"; VString "240"; VString "360"; VString "480"; VString "720"].

(** Lines 130-137, over the elements [forEach] visits: the first one, in
    request order, that is not a string or matches no profile throws. *)
Fixpoint check_names (quality : list Quality) (resolution : list value)
  : result unit :=
  match resolution with
  | [] => Ok tt
  | res :: rest =>
      if negb (typeof_string res) then Err (ResolutionNotString res)
      else if negb (existsb (fun q => strict_eq (of_field (name q)) res) quality)
      then Err (ResolutionNoMatch res (map (fun q => of_field (name q)) quality))
      else check_names quality rest
  end.

(** Line 142, over what [includes] reads in the request. *)
Definition select (quality : list Quality) (resolution : list value)
  : list Quality :=
  List.filter (fun q => includes resolution (of_field (name q))) quality.

(** The request is a JavaScript array: each index holds an element or
    nothing (a hole, as in [new Array(1)] or [['360', , '720']]).  An
    array without holes is [dense]. *)
Definition dense (l : list value) : list (option value) := map Some l.

(** What [some] and [forEach] visit: the elements of the indices that
    hold one, holes being skipped. *)
Definition present (a : list (option value)) : list value :=
  flat_map (fun slot => match slot with Some v => [v] | None => [] end) a.

(** What [includes] compares: the element of every index, a hole
    reading as [undefined]. *)
Definition read (a : list (option value)) : list value :=
  map (fun slot => match slot with Some v => v | None => VUndefined end) a.

(** Lines 116-119: the names in force. *)
Definition requested (resolutionArray : option (list (option value)))
  : list (option value) :=
  match resolutionArray with
  | Some (res :: rest) => res :: rest
  | _ => dense default_resolution
  end.

(** Lines 114-146: the profiles to encode, or the rejection. *)
Definition resolve (quality : list Quality)
  (resolutionArray : option (list (option value))) : result (list Quality) :=
  let resolution := requested resolutionArray in
  if (length resolution =? 0)%nat then Err BadResolutionArray
  else if existsb (fun res => negb (typeof_string res)) (present resolution)
  then Err NonStringResolution
  else
    match check_names quality (present resolution) with
    | Err f => Err f
    | Ok _ =>
        let finalQuality := select quality (read resolution) in
        if (length finalQuality =? 0)%nat then Err NoValidResolutions
        else Ok finalQuality
    end.

(** ** The converter object, its effects and its collaborators *)

(** The fields of [class VideoConverter] (lines 19-21);
    [inputVideoCleanUp] has type [false | string], [None] being [false]. *)
Record VideoConverter := {
  inputFolder : string;
  outputPath : string;
  inputVideoCleanUp : option string
}.

(** The constructor (lines 31-45), with its defaults for the arguments
    left out. *)
Definition new_VideoConverter (folder : string) (output : option string)
  (cleanUp : option (option string)) : VideoConverter :=
  {| inputFolder := folder;
     outputPath := match output with Some o => o | None => "output" end;
     inputVideoCleanUp := match cleanUp with Some c => c | None => None end |}.

(** What a call does to its surroundings, in the order it does it.
    Console output is not recorded. *)
Inductive Effect :=
| DroppedRejection (f : Failure)  (* a rejected promise nobody holds (line 110) *)
| Mkdir (path : string)           (* fs.mkdirSync(path, { recursive: true }) *)
| RunFfmpeg (inputPath uniqueOutputPath : string) (q : Quality)
                                  (* the ffmpeg command of lines 171-223, run *)
| Progress (quality : value) (percent : Z)
                                  (* progressCallback({ quality, percent }) *)
| Unlink (path : string)          (* fs.unlinkSync(path), inside try/catch *)
| WriteFile (path content : string).  (* fs.writeFileSync(path, content) *)

(** The collaborators.  An answer may depend on what the call has done so
    far, so the questions carry the effects already performed. *)
Record World := {
  (** [path.join(a, b)] *)
  path_join : string -> string -> string;
  (** what [uuidv4()] returns in this call *)
  uuidv4 : string;
  (** [fs.existsSync(p)] *)
  existsSync : list Effect -> string -> bool;
  (** [fs.mkdirSync(p, { recursive: true })]: [Some err] when it throws *)
  mkdirSync : list Effect -> string -> option string;
  (** [fs.writeFileSync(p, content)]: [Some err] when it throws *)
  writeFileSync : list Effect -> string -> string -> option string;
  (** how [Promise.all] over the launched jobs settles: [None] when every
      job emits ['end'], [Some err] when the first job that fails emits
      ['error'] with [err].  Every job is taken to emit one of the two. *)
  ffmpeg_settle : list Effect -> option string;
  (** the text of [parseInt(b) * 1000] in a template literal when the
      product leaves the tracked integers *)
  inexact_text : string -> string
}.

(** Computations that perform effects and may reject. *)
Definition M (A : Type) : Type := list Effect -> list Effect * result A.

Definition ret {A} (a : A) : M A := fun t => (t, Ok a).

Definition bind {A B} (m : M A) (k : A -> M B) : M B :=
  fun t =>
    match m t with
    | (t', Ok a) => k a t'
    | (t', Err f) => (t', Err f)
    end.

Definition reject {A} (f : Failure) : M A := fun t => (t, Err f).

Definition lift {A} (r : result A) : M A := fun t => (t, r).

Definition emit (e : Effect) : M unit := fun t => (t ++ [e], Ok tt).

Definition observe {A} (ask : list Effect -> A) : M A :=
  fun t => (t, Ok (ask t)).

Notation "x <- m ;; k" := (bind m (fun x => k))
  (at level 100, m at next level, right associativity).
Notation "m ;; k" := (bind m (fun _ => k))
  (at level 100, right associativity).

Fixpoint for_each {A} (f : A -> M unit) (l : list A) : M unit :=
  match l with
  | [] => ret tt
  | x :: l' => f x ;; for_each f l'
  end.

(** ** The master playlist (lines 229-234) *)

(** The line feed written [\n] in the source. *)
Definition LF : string := String (ascii_of_nat 10) EmptyString.

(** [parseInt(q.bitrate) * 1000] inside the template literal;
    [parseInt] first converts its argument to a string. *)
Definition bandwidth (w : World) (q : Quality) : string :=
  let b := to_string (of_field (bitrate q)) in
  match mul (parseInt b) (Int 1000) with
  | NaN => "NaN"
  | Int z => decimal z
  | Inexact => inexact_text w b
  end.

(** The first line of the template of line 231. *)
Definition stream_inf (w : World) (q : Quality) : string :=
  "#EXT-X-STREAM-INF:BANDWIDTH=" ++ bandwidth w q
  ++ ",RESOLUTION=" ++ to_string (of_field (resolution q)).

(** The template of line 231. *)
Definition playlist_entry (w : World) (q : Quality) : string :=
  stream_inf w q ++ LF ++ to_string (of_field (file q)).

Definition masterPlaylistContent (w : World) (finalQuality : list Quality)
  : string :=
  String.concat LF (map (playlist_entry w) finalQuality).

Definition masterPlaylistHeader : string := "#EXTM3U" ++ LF.

(** What line 234 writes. *)
Definition masterPlaylist (w : World) (finalQuality : list Quality) : string :=
  masterPlaylistHeader ++ masterPlaylistContent w finalQuality.

(** ** [hlsConvert] (lines 73-241) *)

(** Lines 155-157 and 161-163. *)
Definition ensure_dir (w : World) (p : string) : M unit :=
  found <- observe (fun t => existsSync w t p) ;;
  if found : bool then ret tt
  else
    raised <- observe (fun t => mkdirSync w t p) ;;
    match raised with
    | Some err => reject (FsException err)
    | None => emit (Mkdir p)
    end.

(** The ['end'] handler of one job (lines 203-218). *)
Definition on_end (this : VideoConverter) (progressCallback : bool)
  (inputPath : string) (q : Quality) : M unit :=
  (if progressCallback then emit (Progress (of_field (name q)) 100) else ret tt) ;;
  (if truthy (inputVideoCleanUp this) then emit (Unlink inputPath) else ret tt).

(** What the ['end'] handler of one job leaves behind. *)
Definition end_effects (this : VideoConverter) (progressCallback : bool)
  (inputPath : string) (q : Quality) : list Effect :=
  (if progressCallback then [Progress (of_field (name q)) 100] else [])
  ++ (if truthy (inputVideoCleanUp this) then [Unlink inputPath] else []).

(** Line 160: the folder of this conversion. *)
Definition uniqueOutputPath (w : World) (this : VideoConverter)
  (video_id : option string) : string :=
  path_join w (outputPath this)
    (match video_id with
     | Some id => if truthy video_id then id else uuidv4 w
     | None => uuidv4 w
     end).

(** Lines 165-237: the jobs and the master playlist.  The jobs are
    started one after the other by [map] (the executor of a promise runs
    at once); their progress events are not recorded, and the ['end']
    handlers are recorded in list order, once all jobs have ended.  When
    a job fails, the handlers of the others are not recorded. *)
Definition encode (w : World) (this : VideoConverter)
  (progressCallback : bool) (inputPath uniqueOutputPath : string)
  (finalQuality : list Quality) : M unit :=
  for_each (fun q => emit (RunFfmpeg inputPath uniqueOutputPath q))
    finalQuality ;;
  settled <- observe (ffmpeg_settle w) ;;
  match settled with
  | Some err => reject (EncoderError err)
  | None =>
      for_each (on_end this progressCallback inputPath) finalQuality ;;
      let masterPlaylistPath := path_join w uniqueOutputPath "master.m3u8" in
      let content := masterPlaylist w finalQuality in
      raised <- observe (fun t => writeFileSync w t masterPlaylistPath content) ;;
      match raised with
      | Some err => reject (FsException err)
      | None => emit (WriteFile masterPlaylistPath content)
      end
  end.

(** Lines 155-237: what the call does once its arguments have passed the
    checks. *)
Definition produce (w : World) (this : VideoConverter)
  (progressCallback : bool) (video_id : option string)
  (inputPath : string) (finalQuality : list Quality) : M unit :=
  ensure_dir w (outputPath this) ;;
  ensure_dir w (uniqueOutputPath w this video_id) ;;
  encode w this progressCallback inputPath (uniqueOutputPath w this video_id)
    finalQuality.

(** The calls of [mkdirSync] a call may make. *)
Definition folders (w : World) (this : VideoConverter)
  (video_id : option string) (dirs : list Effect) : Prop :=
  forall e, In e dirs ->
    e = Mkdir (outputPath this) \/ e = Mkdir (uniqueOutputPath w this video_id).

(** The call.  [progressCallback] tells whether a callback was passed;
    [resolutionArray] is [None] when the argument is left out, and the
    array otherwise, holes included. *)
Definition hlsConvert (w : World) (this : VideoConverter)
  (inputFileName : string) (progressCallback : bool)
  (resolutionArray : option (list (option value))) (video_id : option string)
  (qualityArray : option (list Quality)) : M unit :=
  let quality := catalog_in_use qualityArray in
  for_each (fun f => emit (DroppedRejection f)) (validate quality) ;;
  finalQuality <- lift (resolve quality resolutionArray) ;;
  if (inputFileName =? "")%string then reject FileNameRequired
  else
    let inputPath := path_join w (inputFolder this) inputFileName in
    found <- observe (fun t => existsSync w t inputPath) ;;
    if negb found then reject (InputMissing inputPath)
    else produce w this progressCallback video_id inputPath finalQuality.

(** A call from a clean slate: the effects performed, and how the
    returned promise settles. *)
Definition run {A} (m : M A) : list Effect * result A := m [].

(** [e] made the folder [p]. *)
Definition made (p : string) (e : Effect) : bool :=
  match e with
  | Mkdir d => (d =? p)%string
  | _ => false
  end.

(** A world for examples: at first only [video/input.mp4] exists, a folder
    exists once it has been made, no operation fails and every job ends. *)
Definition example_world : World :=
  {| path_join := fun a b => (a ++ "/" ++ b)%string;
     uuidv4 := "00000000-0000-4000-8000-000000000000";
     existsSync := fun t p => (p =? "video/input.mp4")%string || existsb (made p) t;
     mkdirSync := fun _ _ => None;
     writeFileSync := fun _ _ _ => None;
     ffmpeg_settle := fun _ => None;
     inexact_text := fun _ => "" |}.

(** The same world, where no folder can be made. *)
Definition readonly_world : World :=
  {| path_join := path_join example_world;
     uuidv4 := uuidv4 example_world;
     existsSync := existsSync example_world;
     mkdirSync := fun _ _ => Some "EACCES: permission denied";
     writeFileSync := writeFileSync example_world;
     ffmpeg_settle := ffmpeg_settle example_world;
     inexact_text := inexact_text example_world |}.

(** The same world, where the output folder can be made and nothing
    below it. *)
Definition nested_readonly_world : World :=
  {| path_join := path_join example_world;
     uuidv4 := uuidv4 example_world;
     existsSync := existsSync example_world;
     mkdirSync := fun _ p =>
       if (p =? "output")%string then None
       else Some "EACCES: permission denied";
     writeFileSync := writeFileSync example_world;
     ffmpeg_settle := ffmpeg_settle example_world;
     inexact_text := inexact_text example_world |}.

Definition example_converter : VideoConverter :=
  new_VideoConverter "video" None None.

(** The custom catalog of the README (lines 88-91). *)
Definition readme_qualities : list Quality :=
  [mkQuality "640x360" "800k" "856k" "1200k" "360p.m3u8" "360" "360p_%03d.ts"].

(** The profiles 360 and 720 of the built-in ladder. *)
Definition q360 : Quality :=
  mkQuality "640x360" "800k" "856k" "1200k" "360p.m3u8" "360" "360p_%03d.ts".

Definition q720 : Quality :=
  mkQuality "1280x720" "2800k" "2996k" "4200k" "720p.m3u8" "720" "720p_%03d.ts".

(** A profile whose bitrate does not start with a digit. *)
Definition q_auto : Quality :=
  mkQuality "640x360" "auto" "856k" "1200k" "360p.m3u8" "360" "360p_%03d.ts".

(** A catalog with every field filled in, whose two profiles share the
    name 360. *)
Definition shared_name_qualities : list Quality :=
  [mkQuality "640x360" "800k" "856k" "1200k" "360p.m3u8" "360" "360p_%03d.ts";
   mkQuality "1280x720" "2800k" "2996k" "4200k" "720p.m3u8" "360" "720p_%03d.ts"].

(** ** Notions used in the statements *)

(** [l1] is [l2] with some elements left out: the elements of [l1] stand
    in [l2], in the same order. *)
Inductive subsequence {A : Type} : list A -> list A -> Prop :=
| subsequence_nil : subsequence [] []
| subsequence_keep x l1 l2 : subsequence l1 l2 -> subsequence (x :: l1) (x :: l2)
| subsequence_skip x l1 l2 : subsequence l1 l2 -> subsequence l1 (x :: l2).

Infix "`subsequence_of`" := subsequence (at level 70).

(** The name of a profile as a text, empty when the profile has none. *)
Definition name_text (q : Quality) : string :=
  match name q with
  | Some s => s
  | None => ""
  end.

(** The invariant the specification asks of a catalog (section 3): the
    seven fields of every profile are non-empty and no two profiles share
    a name. *)
Definition valid_catalog (quality : list Quality) : Prop :=
  Forall (fun q => lacks_field q = false) quality
  /\ NoDup (map name quality).

(** The integer written by the decimal digits [u], most significant
    first, after digits that wrote [a]. *)
Fixpoint uint_acc (u : Decimal.uint) (a : Z) : Z :=
  match u with
  | Decimal.Nil => a
  | Decimal.D0 u' => uint_acc u' (10 * a)
  | Decimal.D1 u' => uint_acc u' (10 * a + 1)
  | Decimal.D2 u' => uint_acc u' (10 * a + 2)
  | Decimal.D3 u' => uint_acc u' (10 * a + 3)
  | Decimal.D4 u' => uint_acc u' (10 * a + 4)
  | Decimal.D5 u' => uint_acc u' (10 * a + 5)
  | Decimal.D6 u' => uint_acc u' (10 * a + 6)
  | Decimal.D7 u' => uint_acc u' (10 * a + 7)
  | Decimal.D8 u' => uint_acc u' (10 * a + 8)
  | Decimal.D9 u' => uint_acc u' (10 * a + 9)
  end%Z.

(** [s] starts with one of 0-9. *)
Definition starts_with_digit (s : string) : bool :=
  match s with
  | String c _ => is_decimal_digit c
  | EmptyString => false
  end.

(** [sub] occurs in [s]. *)
Definition contains (sub s : string) : Prop :=
  exists before after, s = (before ++ sub ++ after)%string.

(** ** The handlers of one job (lines 187-222) *)

(** What fluent-ffmpeg emits for one command.  The [percent] of a
    progress event is absent when ffmpeg cannot tell it, and a Number
    otherwise; a finite Number is a rational (NaN and the infinities are
    left out). *)
Inductive JobEvent :=
| OnStart (cmdLine : string)
| OnProgress (percent : option Q)
| OnStderr (stderrLine : string)
| OnEnd
| OnError (err : string).

(** What the handlers of lines 187-222 do at one event: ['start'] and
    ['stderr'] only write to the console; ['progress'] passes the floor
    of a percent that is a number to the callback; ['end'] is [on_end];
    ['error'] rejects. *)
Definition on_event (this : VideoConverter) (progressCallback : bool)
  (inputPath : string) (q : Quality) (ev : JobEvent) : list Effect :=
  match ev with
  | OnProgress (Some percent) =>
      if progressCallback
      then [Progress (of_field (name q)) (Qfloor percent)]
      else []
  | OnEnd => end_effects this progressCallback inputPath q
  | _ => []
  end.

(** The effects of one job over the events of its command. *)
Definition job_effects (this : VideoConverter) (progressCallback : bool)
  (inputPath : string) (q : Quality) (events : list JobEvent) : list Effect :=
  flat_map (on_event this progressCallback inputPath q) events.

(** How the promise of the job settles: by the first ['end'] or
    ['error'] (lines 217 and 221); [None] while neither has come. *)
Fixpoint job_settles (events : list JobEvent) : option (result unit) :=
  match events with
  | [] => None
  | OnEnd :: _ => Some (Ok tt)
  | OnError err :: _ => Some (Err (EncoderError err))
  | _ :: rest => job_settles rest
  end.

(** ** Readings of a trace and of a world *)

(** The percents passed to the callback, in order. *)
Definition percents (t : list Effect) : list Z :=
  flat_map (fun e => match e with Progress _ p => [p] | _ => [] end) t.

(** The numbers reported by the progress events, in order. *)
Definition reports_of (events : list JobEvent) : list Q :=
  flat_map (fun ev => match ev with OnProgress (Some x) => [x] | _ => [] end)
    events.

(** [ev] is ['end'] or ['error']. *)
Definition terminal (ev : JobEvent) : bool :=
  match ev with
  | OnEnd | OnError _ => true
  | _ => false
  end.

(** The paths [mkdirSync] was called on, in order. *)
Definition mkdirs (t : list Effect) : list string :=
  flat_map (fun e => match e with Mkdir p => [p] | _ => [] end) t.

(** The paths whose deletion was attempted, in order. *)
Definition unlinks (t : list Effect) : list string :=
  flat_map (fun e => match e with Unlink p => [p] | _ => [] end) t.

(** The profiles ffmpeg was run for, in order. *)
Definition launched (t : list Effect) : list Quality :=
  flat_map (fun e => match e with RunFfmpeg _ _ q => [q] | _ => [] end) t.

(** The files written, in order. *)
Definition written (t : list Effect) : list (string * string) :=
  flat_map (fun e => match e with WriteFile p c => [(p, c)] | _ => [] end) t.

(** The calls of [mkdirSync] lines 155-163 make when none throws: one
    for each of the two folders that [existsSync] reports absent when
    its turn comes. *)
Definition made_dirs (w : World) (this : VideoConverter)
  (video_id : option string) : list Effect :=
  let first :=
    if existsSync w [] (outputPath this) then []
    else [Mkdir (outputPath this)] in
  first
  ++ (if existsSync w first (uniqueOutputPath w this video_id) then []
      else [Mkdir (uniqueOutputPath w this video_id)]).

(** No [mkdirSync] of lines 155-163 throws. *)
Definition dirs_ready (w : World) (this : VideoConverter)
  (video_id : option string) : bool :=
  let first :=
    if existsSync w [] (outputPath this) then []
    else [Mkdir (outputPath this)] in
  (existsSync w [] (outputPath this)
   || match mkdirSync w [] (outputPath this) with None => true | Some _ => false end)
  && (existsSync w first (uniqueOutputPath w this video_id)
      || match mkdirSync w first (uniqueOutputPath w this video_id) with
         | None => true
         | Some _ => false
         end).

(** The rejections a call can end with. *)
Definition live_rejection (f : Failure) : bool :=
  match f with
  | NonStringResolution | ResolutionNoMatch _ _ | NoValidResolutions
  | FileNameRequired | InputMissing _ | FsException _ | EncoderError _ => true
  | MissingFields | BadResolutionArray | ResolutionNotString _ => false
  end.

(** What a call may do: make its two folders, run ffmpeg on the input
    file for a resolved profile, call the callback it was given for such
    a profile, try to delete the input file when cleanup is on, and write
    the master playlist of the resolved profiles. *)
Definition permitted (w : World) (this : VideoConverter)
  (inputFileName : string) (progressCallback : bool)
  (resolutionArray : option (list (option value))) (video_id : option string)
  (qualityArray : option (list Quality)) (e : Effect) : Prop :=
  let inputPath := path_join w (inputFolder this) inputFileName in
  let uniq := uniqueOutputPath w this video_id in
  let resolved finalQuality :=
    resolve (catalog_in_use qualityArray) resolutionArray = Ok finalQuality in
  match e with
  | DroppedRejection _ => False
  | Mkdir p => p = outputPath this \/ p = uniq
  | RunFfmpeg i u q =>
      i = inputPath /\ u = uniq
      /\ exists finalQuality, resolved finalQuality /\ In q finalQuality
  | Progress n _ =>
      progressCallback = true
      /\ exists finalQuality q,
           resolved finalQuality /\ In q finalQuality /\ n = of_field (name q)
  | Unlink p => truthy (inputVideoCleanUp this) = true /\ p = inputPath
  | WriteFile p c =>
      p = path_join w uniq "master.m3u8"
      /\ exists finalQuality,
           resolved finalQuality /\ c = masterPlaylist w finalQuality
  end.

(** The example world, where the jobs fail with [err]. *)
Definition failing_world (err : string) : World :=
  {| path_join := path_join example_world;
     uuidv4 := uuidv4 example_world;
     existsSync := existsSync example_world;
     mkdirSync := mkdirSync example_world;
     writeFileSync := writeFileSync example_world;
     ffmpeg_settle := fun _ => Some err;
     inexact_text := inexact_text example_world |}.


(** What the handlers of a job do to the surroundings: calls of the
    callback and attempts to delete. *)
Definition handler_effect (e : Effect) : Prop :=
  match e with
  | Progress _ _ | Unlink _ => True
  | _ => False
  end.

(** The bitrates of the built-in ladder, in kilobits per second. *)
Definition ladder_kilobits : list Z :=
  [100; 150; 200; 350; 400; 500; 800; 1400; 2000; 2800; 5000; 8000; 14000]%Z.

(** The bandwidths of the built-in ladder, in bits per second. *)
Definition ladder_bandwidths : list Z :=
  [100000; 150000; 200000; 350000; 400000; 500000; 800000; 1400000;
   2000000; 2800000; 5000000; 8000000; 14000000]%Z.

(** * Properties *)

(** ** Subset resolution *)

Section Resolution.

Implicit Types (quality : list Quality) (q : Quality) (n : string).

Lemma strict_eq_name q n :
  strict_eq (of_field (name q)) (VString n) = true <-> name q = Some n.
Proof.
  destruct (name q) as [s|]; simpl.
  - rewrite String.eqb_eq. split; congruence.
  - split; discriminate.
Qed.

Lemma strict_eq_requested q n :
  strict_eq (VString n) (of_field (name q)) = true <-> name q = Some n.
Proof.
  destruct (name q) as [s|]; simpl.
  - rewrite String.eqb_eq. split; congruence.
  - split; discriminate.
Qed.

Lemma has_name_spec quality n :
  existsb (fun q => strict_eq (of_field (name q)) (VString n)) quality = true
  <-> exists q, In q quality /\ name q = Some n.
Proof.
  rewrite existsb_exists.
  split; intros [q [Hq Hn]]; exists q; split; auto; now apply strict_eq_name.
Qed.

Lemma includes_names (names : list string) q :
  includes (map VString names) (of_field (name q)) = true
  <-> exists n, In n names /\ name q = Some n.
Proof.
  unfold includes. rewrite existsb_exists. split.
  - intros [v [Hv Heq]]. apply in_map_iff in Hv as [n [<- Hn]].
    exists n. split; auto. now apply strict_eq_requested.
  - intros [n [Hn Heq]]. exists (VString n). split.
    + now apply in_map.
    + now apply strict_eq_requested.
Qed.

Lemma all_strings (names : list string) :
  existsb (fun res => negb (typeof_string res)) (map VString names) = false.
Proof. induction names; simpl; auto. Qed.

Lemma check_names_matched quality (names : list string) :
  (forall n, In n names -> exists q, In q quality /\ name q = Some n) ->
  check_names quality (map VString names) = Ok tt.
Proof.
  induction names as [|n names IH]; intros Hall; simpl; auto.
  assert (Hn : existsb (fun q => strict_eq (of_field (name q)) (VString n)) quality = true)
    by (apply has_name_spec, Hall; now left).
  rewrite Hn. simpl. apply IH. intros m Hm. apply Hall. now right.
Qed.

Lemma select_In quality (names : list string) q :
  In q (select quality (map VString names))
  <-> In q quality /\ exists n, In n names /\ name q = Some n.
Proof.
  unfold select. rewrite filter_In, includes_names. reflexivity.
Qed.

Lemma select_subsequence quality (resolution : list value) :
  select quality resolution `subsequence_of` quality.
Proof.
  unfold select. induction quality as [|q quality IH]; simpl.
  - constructor.
  - destruct (includes resolution (of_field (name q))); now constructor.
Qed.

Lemma subsequence_map {A B} (f : A -> B) (l1 l2 : list A) :
  l1 `subsequence_of` l2 -> map f l1 `subsequence_of` map f l2.
Proof. induction 1; simpl; now constructor. Qed.

Lemma subsequence_In {A} (l1 l2 : list A) x :
  l1 `subsequence_of` l2 -> In x l1 -> In x l2.
Proof. induction 1; simpl; intuition. Qed.

Lemma subsequence_NoDup {A} (l1 l2 : list A) :
  l1 `subsequence_of` l2 -> NoDup l2 -> NoDup l1.
Proof.
  induction 1 as [|x l1 l2 Hsub IH|x l1 l2 Hsub IH]; intros Hnd.
  - constructor.
  - inversion Hnd as [|y l Hnotin Hrest]; subst. constructor.
    + intros Hin. apply Hnotin. eapply subsequence_In; eassumption.
    + now apply IH.
  - inversion Hnd; subst. now apply IH.
Qed.

Lemma default_quality_valid : valid_catalog default_quality.
Proof.
  split.
  - repeat constructor.
  - unfold default_quality, mkQuality; simpl.
    repeat (apply NoDup_cons; [simpl; intuition discriminate|]).
    apply NoDup_nil.
Qed.

Lemma requested_nonempty (a : list (option value)) :
  a <> [] -> requested (Some a) = a.
Proof. destruct a; intros Hne; [congruence | reflexivity]. Qed.

Lemma present_dense (l : list value) : present (dense l) = l.
Proof. induction l as [|v l IH]; [reflexivity|]. cbn. now f_equal. Qed.

Lemma read_dense (l : list value) : read (dense l) = l.
Proof. induction l as [|v l IH]; [reflexivity|]. cbn. now f_equal. Qed.

Lemma In_present (a : list (option value)) (v : value) :
  In v (present a) <-> In (Some v) a.
Proof.
  unfold present. rewrite in_flat_map. split.
  - intros [[x|] [Hx Hv]]; [|destruct Hv]. destruct Hv as [<-|[]]. exact Hx.
  - intros Hin. exists (Some v). split; [exact Hin | now left].
Qed.

Lemma present_read (a : list (option value)) (v : value) :
  In v (present a) -> In v (read a).
Proof.
  rewrite In_present. intros Hin. unfold read.
  apply in_map_iff. now exists (Some v).
Qed.

Lemma In_read (a : list (option value)) (v : value) :
  In v (read a) <-> In (Some v) a \/ (v = VUndefined /\ In None a).
Proof.
  unfold read. rewrite in_map_iff. split.
  - intros [[x|] [Hx Hin]]; subst; auto.
  - intros [Hin | [-> Hin]]; [now exists (Some v) | now exists None].
Qed.

Lemma dense_nonempty (l : list value) : l <> [] -> dense l <> [].
Proof. destruct l; [congruence | discriminate]. Qed.

Lemma requested_dense (l : list value) :
  l <> [] -> requested (Some (dense l)) = dense l.
Proof. intros Hne. now apply requested_nonempty, dense_nonempty. Qed.

Lemma requested_length (resolutionArray : option (list (option value))) :
  (length (requested resolutionArray) =? 0)%nat = false.
Proof. destruct resolutionArray as [[|res rest]|]; reflexivity. Qed.

Lemma strict_eq_sym (a b : value) : strict_eq a b = strict_eq b a.
Proof.
  destruct a, b; simpl; auto.
  - now destruct b, b0.
  - apply Z.eqb_sym.
  - apply String.eqb_sym.
Qed.

Lemma check_names_all quality (resolution : list value) res :
  check_names quality resolution = Ok tt ->
  In res resolution ->
  typeof_string res = true
  /\ existsb (fun q => strict_eq (of_field (name q)) res) quality = true.
Proof.
  induction resolution as [|r rest IH]; intros Hc Hin; [destruct Hin|].
  simpl in Hc.
  destruct (typeof_string r) eqn:Hty; simpl in Hc; [|discriminate].
  destruct (existsb (fun q => strict_eq (of_field (name q)) r) quality) eqn:Hex;
    simpl in Hc; [|discriminate].
  destruct Hin as [->|Hin]; auto.
Qed.

Lemma check_names_kind quality (resolution : list value) f :
  check_names quality resolution = Err f -> kind f = InvalidRequest.
Proof.
  induction resolution as [|r rest IH]; simpl; [discriminate|].
  destruct (typeof_string r); simpl.
  - destruct (existsb _ quality); simpl; auto.
    intros Heq. injection Heq as <-. reflexivity.
  - intros Heq. injection Heq as <-. reflexivity.
Qed.

(** A name that passed the check selects its profile. *)
Lemma check_names_select_read quality (a : list (option value)) res :
  check_names quality (present a) = Ok tt ->
  In res (present a) ->
  exists q, In q (select quality (read a)).
Proof.
  intros Hc Hin. destruct (check_names_all _ _ _ Hc Hin) as [_ Hex].
  apply existsb_exists in Hex as [q [Hq Heq]].
  exists q. apply filter_In. split; auto.
  apply existsb_exists. exists res. split; [now apply present_read|].
  now rewrite strict_eq_sym.
Qed.

Lemma select_nonempty quality (resolutionArray : option (list (option value))) :
  check_names quality (present (requested resolutionArray)) = Ok tt ->
  present (requested resolutionArray) <> [] ->
  select quality (read (requested resolutionArray)) <> [].
Proof.
  intros Hc Hne Hnil.
  destruct (present (requested resolutionArray)) as [|res l] eqn:Hp;
    [congruence|].
  destruct (check_names_select_read quality (requested resolutionArray) res)
    as [q Hq].
  - now rewrite Hp.
  - rewrite Hp. now left.
  - rewrite Hnil in Hq. destruct Hq.
Qed.

(** What subset resolution returns is never empty. *)
Lemma resolve_ok_nonempty quality (resolutionArray : option (list (option value)))
  (finalQuality : list Quality) :
  resolve quality resolutionArray = Ok finalQuality -> finalQuality <> [].
Proof.
  unfold resolve. rewrite requested_length.
  destruct (existsb _ (present (requested resolutionArray))); [discriminate|].
  destruct (check_names quality (present (requested resolutionArray)))
    as [[]|f]; [|discriminate].
  destruct (select quality (read (requested resolutionArray))) as [|q l];
    [discriminate|].
  intros Heq. injection Heq as <-. discriminate.
Qed.

(** The profiles of a successful resolution are the selection. *)
Lemma resolve_ok_select quality (resolutionArray : option (list (option value)))
  finalQuality :
  resolve quality resolutionArray = Ok finalQuality ->
  finalQuality = select quality (read (requested resolutionArray))
  /\ check_names quality (present (requested resolutionArray)) = Ok tt
  /\ existsb (fun res => negb (typeof_string res))
       (present (requested resolutionArray)) = false.
Proof.
  unfold resolve. rewrite requested_length.
  destruct (existsb _ (present (requested resolutionArray))); [discriminate|].
  destruct (check_names quality (present (requested resolutionArray)))
    as [[]|f]; [|discriminate].
  destruct (length _ =? 0)%nat; [discriminate|].
  intros Heq. injection Heq as <-. auto.
Qed.

(** What a call resolves comes from the built-in ladder, in its order. *)
Lemma resolve_in_use_ladder (qualityArray : option (list Quality))
  (resolutionArray : option (list (option value))) finalQuality :
  resolve (catalog_in_use qualityArray) resolutionArray = Ok finalQuality ->
  finalQuality `subsequence_of` default_quality.
Proof.
  intros Hr. destruct (resolve_ok_select _ _ _ Hr) as [-> _].
  destruct qualityArray as [[|q0 l0]|]; cbn [catalog_in_use] in *;
    try apply select_subsequence.
  apply resolve_ok_nonempty in Hr. now elim Hr.
Qed.

Lemma check_names_unmatched quality (l : list value) :
  (forall res, In res l -> typeof_string res = true) ->
  (exists n, In (VString n) l /\ ~ exists q, In q quality /\ name q = Some n) ->
  exists n,
    In (VString n) l
    /\ (~ exists q, In q quality /\ name q = Some n)
    /\ check_names quality l
       = Err (ResolutionNoMatch (VString n)
                (map (fun q => of_field (name q)) quality)).
Proof.
  induction l as [|res rest IH]; intros Hstr [n [Hin Hno]]; [destruct Hin|].
  assert (Hres := Hstr res (or_introl eq_refl)).
  destruct res as [| |b|z|m]; try discriminate. simpl.
  destruct (existsb (fun q => strict_eq (of_field (name q)) (VString m)) quality)
    eqn:Hm; simpl.
  - destruct Hin as [Heq|Hin].
    + injection Heq as ->. apply has_name_spec in Hm. contradiction.
    + destruct IH as [k [Hk [Hnk Hc]]].
      * intros v Hv. apply Hstr. now right.
      * now exists n.
      * exists k. auto.
  - exists m. split; [now left|]. split; [|reflexivity].
    intros Hex. apply has_name_spec in Hex. congruence.
Qed.

Lemma join_names quality :
  join ", " (map (fun q => of_field (name q)) quality)
  = String.concat ", " (map name_text quality).
Proof.
  unfold join. rewrite map_map. f_equal. apply map_ext.
  intros q. unfold name_text. now destruct (name q).
Qed.

Lemma some_nonstring (l : list value) :
  (exists res, In res l /\ typeof_string res = false) ->
  existsb (fun res => negb (typeof_string res)) l = true.
Proof.
  intros [res [Hin Hty]]. apply existsb_exists. exists res. now rewrite Hty.
Qed.

Lemma no_nonstring (l : list value) :
  (forall res, In res l -> typeof_string res = true) ->
  existsb (fun res => negb (typeof_string res)) l = false.
Proof.
  intros Hall. induction l as [|res rest IH]; simpl; auto.
  rewrite (Hall res) by now left. apply IH. intros v Hv. apply Hall. now right.
Qed.

(** How subset resolution fails: on a request that holds an element, by
    the checks of lines 125-137; on a request that holds none, at line
    145. *)
Lemma resolve_err quality (resolutionArray : option (list (option value)))
  (f : Failure) :
  resolve quality resolutionArray = Err f ->
  (kind f = InvalidRequest /\ present (requested resolutionArray) <> [])
  \/ (f = NoValidResolutions /\ present (requested resolutionArray) = []).
Proof.
  unfold resolve. rewrite requested_length.
  destruct (present (requested resolutionArray)) as [|v l] eqn:Hp.
  - cbn [existsb check_names].
    destruct (length _ =? 0)%nat; [|discriminate].
    intros Heq. injection Heq as <-. now right.
  - rewrite <- Hp.
    destruct (existsb _ (present (requested resolutionArray))).
    + intros Heq. injection Heq as <-. left. split; [reflexivity|].
      rewrite Hp. discriminate.
    + destruct (check_names quality (present (requested resolutionArray)))
        as [[]|g] eqn:Hc.
      * assert (Hne : select quality (read (requested resolutionArray)) <> []).
        { apply select_nonempty; [exact Hc|]. rewrite Hp. discriminate. }
        destruct (select quality (read (requested resolutionArray)));
          [congruence | discriminate].
      * intros Heq. injection Heq as <-. left.
        split; [eapply check_names_kind, Hc|]. rewrite Hp. discriminate.
Qed.

Lemma resolve_kind quality (resolutionArray : option (list (option value)))
  (f : Failure) :
  resolve quality resolutionArray = Err f ->
  kind f = InvalidRequest \/ kind f = EmptySelection.
Proof.
  intros Hr. destruct (resolve_err _ _ _ Hr) as [[Hk _] | [-> _]]; auto.
Qed.

(** C4. For a valid catalog and a non-empty list of requested names that
    all name a profile of the catalog, subset resolution succeeds and
    returns exactly the profiles whose name was requested, in catalog
    order (the result is a subsequence of the catalog, whatever the order
    of the request), each profile once even when a name is requested
    several times. *)
Theorem resolve_requested_profiles quality (names : list string) :
  valid_catalog quality ->
  names <> [] ->
  (forall n, In n names -> exists q, In q quality /\ name q = Some n) ->
  exists finalQuality,
    resolve quality (Some (dense (map VString names))) = Ok finalQuality
    /\ (forall q, In q finalQuality <->
                  In q quality /\ exists n, In n names /\ name q = Some n)
    /\ finalQuality `subsequence_of` quality
    /\ NoDup finalQuality
    /\ NoDup (map name finalQuality).
Proof.
  intros [_ Hnodup] Hne Hall.
  exists (select quality (map VString names)).
  assert (Hsub := select_subsequence quality (map VString names)).
  assert (Hnames : NoDup (map name (select quality (map VString names)))).
  { eapply subsequence_NoDup; [apply subsequence_map, Hsub | exact Hnodup]. }
  split; [|split; [|split; [|split]]].
  - unfold resolve.
    rewrite requested_dense by (destruct names; simpl; congruence).
    rewrite present_dense, read_dense.
    destruct names as [|n names]; [congruence|].
    change (length (dense (map VString (n :: names))) =? 0)%nat with false.
    cbv iota. rewrite all_strings, check_names_matched by assumption.
    destruct (Hall n (or_introl eq_refl)) as [q [Hq Hn]].
    assert (Hin : In q (select quality (map VString (n :: names)))).
    { apply select_In. split; auto. exists n. split; auto. now left. }
    destruct (select quality (map VString (n :: names))); [destruct Hin | reflexivity].
  - intros q. apply select_In.
  - assumption.
  - eapply NoDup_map_inv; eassumption.
  - assumption.
Qed.

Lemma resolve_requested_profiles_witness :
  exists finalQuality,
    resolve default_quality (Some (dense (map VString ["720"; "120"; "720"])))
    = Ok finalQuality
    /\ (forall q, In q finalQuality <->
                  In q default_quality
                  /\ exists n, In n ["720"; "120"; "720"] /\ name q = Some n)
    /\ finalQuality `subsequence_of` default_quality
    /\ NoDup finalQuality
    /\ NoDup (map name finalQuality).
Proof.
  apply (resolve_requested_profiles default_quality ["720"; "120"; "720"]).
  - exact default_quality_valid.
  - discriminate.
  - intros n Hn. apply has_name_spec.
    destruct Hn as [<-|[<-|[<-|[]]]]; reflexivity.
Defined.

(** The request decides what is kept, the catalog decides the order. *)
Example resolve_catalog_order :
  option_map (map name)
    (match resolve default_quality
             (Some (dense [VString "720"; VString "120"; VString "720"])) with
     | Ok l => Some l
     | Err _ => None
     end)
  = Some [Some "120"; Some "720"].
Proof. reflexivity. Qed.

(** C8. With the requested names absent or empty, the built-in ladder is
    the working catalog when no catalog is supplied, and subset
    resolution against it returns exactly the five profiles named 120,
    240, 360, 480 and 720, in catalog order. *)
Theorem resolve_default_names :
  catalog_in_use None = default_quality
  /\ catalog_in_use (Some []) = default_quality
  /\ exists finalQuality,
       resolve default_quality None = Ok finalQuality
       /\ resolve default_quality (Some []) = Ok finalQuality
       /\ map name finalQuality
          = [Some "120"; Some "240"; Some "360"; Some "480"; Some "720"]
       /\ finalQuality `subsequence_of` default_quality
       /\ NoDup finalQuality.
Proof.
  split; [reflexivity|]. split; [reflexivity|].
  exists (select default_quality default_resolution).
  split; [reflexivity|]. split; [reflexivity|]. split; [reflexivity|].
  split; [apply select_subsequence|].
  eapply subsequence_NoDup; [apply select_subsequence|].
  eapply NoDup_map_inv. apply default_quality_valid.
Qed.

(** C6. A request (necessarily non-empty) whose elements are strings,
    one of which names no profile of the catalog, is rejected with an
    InvalidRequest error whose message lists every name of the catalog; a
    request with an element that is not a string is rejected with an
    InvalidRequest error too; and whatever else it holds, a request with
    a name that matches no profile is rejected with an InvalidRequest
    error.  The request is any array, with or without holes; [Some res]
    is an element it holds. *)
Theorem resolve_invalid_request quality (resolutionArray : list (option value)) :
  ((forall res, In (Some res) resolutionArray -> typeof_string res = true) ->
   (exists n, In (Some (VString n)) resolutionArray
              /\ ~ exists q, In q quality /\ name q = Some n) ->
   exists n f,
     In (Some (VString n)) resolutionArray
     /\ (~ exists q, In q quality /\ name q = Some n)
     /\ resolve quality (Some resolutionArray) = Err f
     /\ kind f = InvalidRequest
     /\ message f
        = ("Invalid resolution name: " ++ n
           ++ ". It does not match any quality name. Valid names are "
           ++ String.concat ", " (map name_text quality)
           ++ ".")%string)
  /\ ((exists res, In (Some res) resolutionArray /\ typeof_string res = false) ->
      exists f,
        resolve quality (Some resolutionArray) = Err f
        /\ kind f = InvalidRequest
        /\ message f = "All elements in the resolution array must be strings.")
  /\ ((exists n, In (Some (VString n)) resolutionArray
                 /\ ~ exists q, In q quality /\ name q = Some n) ->
      fails_as InvalidRequest (resolve quality (Some resolutionArray)) = true).
Proof.
  split; [|split].
  - intros Hstr Hex.
    assert (Hstr' : forall res, In res (present resolutionArray) ->
                      typeof_string res = true).
    { intros res Hin. now apply Hstr, In_present. }
    assert (Hex' : exists n, In (VString n) (present resolutionArray)
                     /\ ~ exists q, In q quality /\ name q = Some n).
    { destruct Hex as [n [Hin Hno]]. exists n. split; [|exact Hno].
      now apply In_present. }
    destruct (check_names_unmatched quality (present resolutionArray) Hstr' Hex')
      as [n [Hin [Hno Hc]]].
    exists n, (ResolutionNoMatch (VString n) (map (fun q => of_field (name q)) quality)).
    apply In_present in Hin.
    repeat split; auto.
    + unfold resolve.
      rewrite requested_nonempty by (intros ->; destruct Hin).
      destruct resolutionArray as [|res rest]; [destruct Hin|].
      change (length (res :: rest) =? 0)%nat with false. cbv iota.
      rewrite (no_nonstring _ Hstr'), Hc. reflexivity.
    + simpl. now rewrite join_names.
  - intros Hex. exists NonStringResolution. repeat split.
    unfold resolve.
    rewrite requested_nonempty by (intros ->; destruct Hex as [? [[] _]]).
    destruct resolutionArray as [|res rest]; [destruct Hex as [? [[] _]]|].
    change (length (res :: rest) =? 0)%nat with false. cbv iota.
    rewrite some_nonstring; [reflexivity|].
    destruct Hex as [v [Hin Hty]]. exists v. split; [|exact Hty].
    now apply In_present.
  - intros [n [Hin Hno]].
    destruct (resolve quality (Some resolutionArray)) as [fq|f] eqn:Hr.
    + exfalso. apply Hno. unfold resolve in Hr.
      rewrite requested_length in Hr.
      destruct (existsb _ (present (requested (Some resolutionArray))));
        [discriminate|].
      destruct (check_names quality (present (requested (Some resolutionArray))))
        as [[]|g] eqn:Hc; [|discriminate].
      rewrite requested_nonempty in Hc by (intros ->; destruct Hin).
      apply In_present in Hin.
      destruct (check_names_all _ _ _ Hc Hin) as [_ Hex].
      now apply has_name_spec.
    + simpl. destruct (resolve_err _ _ _ Hr) as [[-> _] | [_ Hnone]];
        [reflexivity|].
      rewrite requested_nonempty in Hnone by (intros ->; destruct Hin).
      apply In_present in Hin. rewrite Hnone in Hin. destruct Hin.
Qed.

Lemma resolve_invalid_request_witness :
  (exists n f,
     In (Some (VString n)) (dense [VString "720"; VString "999"])
     /\ (~ exists q, In q default_quality /\ name q = Some n)
     /\ resolve default_quality (Some (dense [VString "720"; VString "999"]))
        = Err f
     /\ kind f = InvalidRequest
     /\ message f
        = ("Invalid resolution name: " ++ n
           ++ ". It does not match any quality name. Valid names are "
           ++ String.concat ", " (map name_text default_quality)
           ++ ".")%string)
  /\ (exists f,
        resolve default_quality (Some (dense [VString "720"; VNumber 360]))
        = Err f
        /\ kind f = InvalidRequest
        /\ message f = "All elements in the resolution array must be strings.").
Proof.
  split.
  - apply (proj1 (resolve_invalid_request default_quality
                    (dense [VString "720"; VString "999"]))).
    + intros res [Heq|[Heq|[]]]; injection Heq as <-; reflexivity.
    + exists "999". split; [simpl; auto|].
      intros Hex. apply has_name_spec in Hex. discriminate.
  - apply (proj2 (resolve_invalid_request default_quality
                    (dense [VString "720"; VNumber 360]))).
    exists (VNumber 360). split; [simpl; auto | reflexivity].
Defined.

(** The unknown name 999 against the built-in ladder. *)
Example resolve_999 :
  match resolve default_quality (Some (dense [VString "999"])) with
  | Err f => message f
  | Ok _ => ""
  end
  = "Invalid resolution name: 999. It does not match any quality name. Valid names are 120, 160, 240, 180, 240w, 270, 360, 480, 540, 720, 1080, 1440, 2160.".
Proof. reflexivity. Qed.

(** A request holds no element exactly when it is a non-empty array of
    holes: the default names are elements. *)
Lemma present_none (resolutionArray : option (list (option value))) :
  present (requested resolutionArray) = []
  <-> exists a, resolutionArray = Some a /\ a <> []
                /\ Forall (fun slot => slot = None) a.
Proof.
  assert (Hholes : forall a : list (option value),
            present a = [] <-> Forall (fun slot => slot = None) a).
  { induction a as [|[v|] a IH]; cbn.
    - split; auto.
    - split; [discriminate | intros H; inversion H; discriminate].
    - rewrite IH. split; [now constructor | now inversion 1]. }
  destruct resolutionArray as [[|slot a]|]; cbn [requested].
  - split; [discriminate | intros [a [Heq [Hne _]]]; congruence].
  - rewrite Hholes. split.
    + intros Hall. exists (slot :: a). split; [reflexivity|].
      split; [discriminate | exact Hall].
    + intros [a' [Heq [_ Hall]]]. now injection Heq as <-.
  - split; [discriminate | intros [a [Heq _]]; discriminate].
Qed.

(** A hole selects the profiles that have no name, and only those. *)
Lemma select_holes quality (a : list (option value)) :
  present a = [] ->
  Forall (fun q => name q <> None) quality ->
  select quality (read a) = [].
Proof.
  intros Hnone Hnamed. unfold select.
  induction Hnamed as [|q quality Hq _ IH]; [reflexivity|].
  cbn [List.filter].
  destruct (includes (read a) (of_field (name q))) eqn:Hinc; [|exact IH].
  exfalso. unfold includes in Hinc.
  apply existsb_exists in Hinc as [v [Hv Heq]].
  apply In_read in Hv as [Hv | [-> _]].
  - apply In_present in Hv. rewrite Hnone in Hv. destruct Hv.
  - destruct (name q); [discriminate Heq | congruence].
Qed.

(** C9 (amended). Once every requested name has passed the per-name
    check, subset resolution fails with EmptySelection exactly when the
    selection is empty.  With a request that holds at least one element
    and the names checked, the selection is not empty and the
    EmptySelection rejection is not reached.  It is reached by a request
    that holds no element, a non-empty array of holes, against any
    catalog, empty or not, whose profiles all have a name. *)
Theorem empty_selection_by_holes quality
  (resolutionArray : option (list (option value))) :
  check_names quality (present (requested resolutionArray)) = Ok tt ->
  (resolve quality resolutionArray = Err NoValidResolutions
   <-> select quality (read (requested resolutionArray)) = [])
  /\ (present (requested resolutionArray) <> [] ->
      select quality (read (requested resolutionArray)) <> []
      /\ fails_as EmptySelection (resolve quality resolutionArray) = false)
  /\ (Forall (fun q => name q <> None) quality ->
      (resolve quality resolutionArray = Err NoValidResolutions
       <-> exists a, resolutionArray = Some a /\ a <> []
                     /\ Forall (fun slot => slot = None) a)).
Proof.
  intros Hc.
  assert (Hstr : existsb (fun res => negb (typeof_string res))
                   (present (requested resolutionArray)) = false).
  { apply no_nonstring. intros res Hin.
    now destruct (check_names_all _ _ _ Hc Hin). }
  assert (Hiff : resolve quality resolutionArray = Err NoValidResolutions
                 <-> select quality (read (requested resolutionArray)) = []).
  { unfold resolve. rewrite requested_length, Hstr, Hc.
    destruct (select quality (read (requested resolutionArray))); simpl.
    - split; reflexivity.
    - split; discriminate. }
  split; [exact Hiff|]. split.
  - intros Hne. assert (Hsel := select_nonempty _ _ Hc Hne).
    split; [exact Hsel|].
    unfold resolve. rewrite requested_length, Hstr, Hc.
    destruct (select quality (read (requested resolutionArray)));
      [congruence | reflexivity].
  - intros Hnamed. rewrite <- present_none, Hiff. split.
    + intros Hsel.
      assert (Hne := select_nonempty _ _ Hc).
      destruct (present (requested resolutionArray)) as [|v l];
        [reflexivity|].
      exfalso. apply Hne; [discriminate | exact Hsel].
    + intros Hnone. now apply select_holes.
Qed.

Lemma empty_selection_by_holes_witness :
  resolve default_quality (Some [None; None]) = Err NoValidResolutions
  /\ select default_quality
       (read (requested (Some [None; Some (VString "360")]))) <> []
  /\ fails_as EmptySelection
       (resolve default_quality (Some [None; Some (VString "360")])) = false.
Proof.
  split.
  - apply (proj2 (proj2 (empty_selection_by_holes default_quality
                           (Some [None; None]) eq_refl))).
    + unfold default_quality.
      repeat (apply Forall_cons; [discriminate|]). apply Forall_nil.
    + exists [None; None]. split; [reflexivity|].
      split; [discriminate | repeat constructor].
  - apply (proj1 (proj2 (empty_selection_by_holes default_quality
                           (Some [None; Some (VString "360")]) eq_refl))).
    discriminate.
Defined.

(** [new Array(1)] against the built-in ladder: the catalog is not empty,
    no name is refused, and the call is rejected at line 145. *)
Lemma empty_selection_nonempty_catalog :
  default_quality <> []
  /\ check_names default_quality (present (requested (Some [None]))) = Ok tt
  /\ resolve default_quality (Some [None]) = Err NoValidResolutions
  /\ fails_as EmptySelection (resolve default_quality (Some [None])) = true
  /\ run (hlsConvert example_world example_converter "input.mp4" false
            (Some [None]) None None)
     = ([], Err NoValidResolutions)
  /\ message NoValidResolutions
     = "No valid resolutions provided for conversion.".
Proof. repeat split. discriminate. Qed.

(** Against an empty catalog the first requested name is refused: the
    rejection is the one of line 135, not the one of line 145. *)
Example resolve_empty_catalog :
  resolve [] None = Err (ResolutionNoMatch (VString "120") []).
Proof. reflexivity. Qed.

End Resolution.

(** ** The checks of [hlsConvert] *)

Section Checks.

Variable w : World.
Variable this : VideoConverter.

Implicit Types (quality finalQuality : list Quality) (f : Failure)
  (t : list Effect) (inputFileName : string) (progressCallback : bool)
  (resolutionArray : option (list (option value))) (video_id : option string)
  (qualityArray : option (list Quality)).

(** The field check finds nothing to report in the working catalog: it is
    the built-in ladder or empty. *)
Lemma validate_catalog_in_use qualityArray :
  validate (catalog_in_use qualityArray) = [].
Proof. destruct qualityArray as [[|q qs]|]; reflexivity. Qed.

(** The call, check by check. *)
Lemma hlsConvert_run inputFileName progressCallback resolutionArray video_id
  qualityArray :
  run (hlsConvert w this inputFileName progressCallback resolutionArray
         video_id qualityArray)
  = match resolve (catalog_in_use qualityArray) resolutionArray with
    | Err f => ([], Err f)
    | Ok finalQuality =>
        if (inputFileName =? "")%string then ([], Err FileNameRequired)
        else
          let inputPath := path_join w (inputFolder this) inputFileName in
          if existsSync w [] inputPath
          then produce w this progressCallback video_id inputPath finalQuality []
          else ([], Err (InputMissing inputPath))
    end.
Proof.
  unfold run, hlsConvert. rewrite validate_catalog_in_use. simpl.
  unfold bind, ret, lift, reject, observe.
  destruct (resolve (catalog_in_use qualityArray) resolutionArray) as [fq|f]; auto.
  destruct (inputFileName =? "")%string; auto.
  destruct (existsSync w [] (path_join w (inputFolder this) inputFileName)); auto.
Qed.

Lemma for_each_emit {A} (g : A -> Effect) (l : list A) t :
  for_each (fun x => emit (g x)) l t = (t ++ map g l, Ok tt).
Proof.
  revert t. induction l as [|x l IH]; intros t; simpl.
  - unfold ret. now rewrite app_nil_r.
  - unfold bind, emit. rewrite IH, <- app_assoc. reflexivity.
Qed.

Lemma on_end_run progressCallback inputPath (q : Quality) t :
  on_end this progressCallback inputPath q t
  = (t ++ end_effects this progressCallback inputPath q, Ok tt).
Proof.
  unfold on_end, end_effects, bind, emit, ret.
  destruct progressCallback, (truthy (inputVideoCleanUp this)); simpl;
    rewrite <- ?app_assoc, ?app_nil_r; reflexivity.
Qed.

Lemma for_each_on_end progressCallback inputPath finalQuality t :
  for_each (on_end this progressCallback inputPath) finalQuality t
  = (t ++ flat_map (end_effects this progressCallback inputPath) finalQuality,
     Ok tt).
Proof.
  revert t. induction finalQuality as [|q l IH]; intros t; simpl.
  - unfold ret. now rewrite app_nil_r.
  - unfold bind. rewrite on_end_run, IH, <- app_assoc. reflexivity.
Qed.

Lemma ensure_dir_run (p : string) t :
  ensure_dir w p t
  = if existsSync w t p then (t, Ok tt)
    else match mkdirSync w t p with
         | Some err => (t, Err (FsException err))
         | None => (t ++ [Mkdir p], Ok tt)
         end.
Proof.
  unfold ensure_dir, bind, observe, ret, reject, emit.
  destruct (existsSync w t p); auto. now destruct (mkdirSync w t p).
Qed.

(** Jobs that all end are followed by their handlers and by the master
    playlist, written last. *)
Lemma encode_ok progressCallback inputPath (uniq : string) finalQuality t t' :
  encode w this progressCallback inputPath uniq finalQuality t = (t', Ok tt) ->
  ffmpeg_settle w (t ++ map (RunFfmpeg inputPath uniq) finalQuality) = None
  /\ t' = t ++ map (RunFfmpeg inputPath uniq) finalQuality
          ++ flat_map (end_effects this progressCallback inputPath) finalQuality
          ++ [WriteFile (path_join w uniq "master.m3u8")
                (masterPlaylist w finalQuality)].
Proof.
  unfold encode, bind at 1. rewrite for_each_emit.
  unfold bind at 1, observe at 1.
  destruct (ffmpeg_settle w _) as [err|] eqn:Hsettle; [discriminate|].
  unfold bind at 1. rewrite for_each_on_end.
  unfold bind, observe.
  destruct (writeFileSync w _ _ _) as [err|]; [discriminate|].
  unfold emit. intros Heq. injection Heq as <-.
  split; [reflexivity|]. rewrite <- !app_assoc. reflexivity.
Qed.

(** Making a folder, when it gets through, adds at most its [Mkdir]. *)
Lemma ensure_dir_ok (p : string) t t' :
  ensure_dir w p t = (t', Ok tt) ->
  exists d, t' = t ++ d /\ forall e, In e d -> e = Mkdir p.
Proof.
  rewrite ensure_dir_run. destruct (existsSync w t p).
  - intros Heq. injection Heq as <-. exists []. split.
    + now rewrite app_nil_r.
    + intros e [].
  - destruct (mkdirSync w t p); [discriminate|].
    intros Heq. injection Heq as <-. exists [Mkdir p]. split; auto.
    intros e [<-|[]]; reflexivity.
Qed.

(** A call that gets through made its folders, started one job per
    quality in order, saw every job end, and wrote the master playlist
    last. *)
Lemma produce_ok progressCallback video_id inputPath finalQuality t t' :
  produce w this progressCallback video_id inputPath finalQuality t = (t', Ok tt) ->
  exists dirs,
    folders w this video_id dirs
    /\ ffmpeg_settle w
         (t ++ dirs
          ++ map (RunFfmpeg inputPath (uniqueOutputPath w this video_id))
               finalQuality) = None
    /\ t' = t ++ dirs
            ++ map (RunFfmpeg inputPath (uniqueOutputPath w this video_id))
                 finalQuality
            ++ flat_map (end_effects this progressCallback inputPath) finalQuality
            ++ [WriteFile
                  (path_join w (uniqueOutputPath w this video_id) "master.m3u8")
                  (masterPlaylist w finalQuality)].
Proof.
  unfold produce, bind.
  destruct (ensure_dir w (outputPath this) t) as [t1 [[]|f]] eqn:H1;
    [|discriminate].
  destruct (ensure_dir w (uniqueOutputPath w this video_id) t1) as [t2 [[]|f]]
    eqn:H2; [|discriminate].
  apply ensure_dir_ok in H1 as [d1 [-> Hd1]].
  apply ensure_dir_ok in H2 as [d2 [-> Hd2]].
  intros Henc. apply encode_ok in Henc as [Hsettle ->].
  exists (d1 ++ d2). rewrite <- !app_assoc in *. repeat split; auto.
  intros e He. apply in_app_or in He as [He|He]; [left|right]; auto.
Qed.

Lemma ensure_dir_err (p : string) t t' f :
  ensure_dir w p t = (t', Err f) -> kind f = IOFailure.
Proof.
  rewrite ensure_dir_run. destruct (existsSync w t p); [discriminate|].
  destruct (mkdirSync w t p); [|discriminate].
  intros Heq. injection Heq as _ <-. reflexivity.
Qed.

Lemma encode_err progressCallback inputPath (uniq : string) finalQuality t t' f :
  encode w this progressCallback inputPath uniq finalQuality t = (t', Err f) ->
  kind f = EncodeFailure \/ kind f = IOFailure.
Proof.
  unfold encode, bind at 1. rewrite for_each_emit.
  unfold bind at 1, observe at 1.
  destruct (ffmpeg_settle w _) as [err|].
  - unfold reject. intros Heq. injection Heq as _ <-. now left.
  - unfold bind at 1. rewrite for_each_on_end. unfold bind, observe.
    destruct (writeFileSync w _ _ _) as [err|]; [|discriminate].
    unfold reject. intros Heq. injection Heq as _ <-. now right.
Qed.

Lemma produce_err progressCallback video_id inputPath finalQuality t t' f :
  produce w this progressCallback video_id inputPath finalQuality t = (t', Err f) ->
  kind f = EncodeFailure \/ kind f = IOFailure.
Proof.
  unfold produce, bind.
  destruct (ensure_dir w (outputPath this) t) as [t1 [[]|g]] eqn:H1.
  - destruct (ensure_dir w (uniqueOutputPath w this video_id) t1) as [t2 [[]|g]]
      eqn:H2.
    + apply encode_err.
    + intros Heq. injection Heq as _ <-. right. eapply ensure_dir_err, H2.
  - intros Heq. injection Heq as _ <-. right. eapply ensure_dir_err, H1.
Qed.

(** No call is rejected by the field check. *)
Lemma hlsConvert_never_invalid_profile inputFileName progressCallback
  resolutionArray video_id qualityArray :
  fails_as InvalidProfile
    (snd (run (hlsConvert w this inputFileName progressCallback resolutionArray
                 video_id qualityArray))) = false.
Proof.
  rewrite hlsConvert_run.
  destruct (resolve (catalog_in_use qualityArray) resolutionArray) as [fq|f] eqn:Hr.
  - destruct (inputFileName =? "")%string; [reflexivity|]. cbv zeta.
    destruct (existsSync w [] _); [|reflexivity].
    destruct (produce w this progressCallback video_id _ fq [])
      as [t' [[]|f]] eqn:Hp; [reflexivity|].
    simpl. destruct (produce_err _ _ _ _ _ _ _ Hp) as [-> | ->]; reflexivity.
  - simpl. destruct (resolve_kind _ _ _ Hr) as [Hk | Hk]; now rewrite Hk.
Qed.

Lemma validate_complete quality :
  Forall (fun q => lacks_field q = false) quality -> validate quality = [].
Proof.
  induction 1 as [|q quality Hq _ IH]; simpl; auto. now rewrite Hq.
Qed.

(** C2 (amended). The catalog check of lines 107-112 looks at the seven
    fields of each profile and never compares names: a catalog whose
    profiles all carry the seven fields gives the check nothing to
    report, and the call is not rejected with InvalidProfile, whether or
    not two of its profiles share a name. *)
Theorem field_check_ignores_names quality :
  Forall (fun q => lacks_field q = false) quality ->
  validate quality = []
  /\ forall inputFileName progressCallback resolutionArray video_id,
       fails_as InvalidProfile
         (snd (run (hlsConvert w this inputFileName progressCallback
                      resolutionArray video_id (Some quality)))) = false.
Proof.
  intros Hfields. split.
  - now apply validate_complete.
  - intros. apply hlsConvert_never_invalid_profile.
Qed.

(** C3 (amended). The checks come in the order: subset resolution, file
    name not empty, input file present, output directory preparation
    (mkdirSync on the output folder, then on the folder of the
    conversion, each when existsSync finds it absent); the first one
    that fails decides the rejection.  Nothing has been done when one of
    the first three fails.  When a mkdirSync throws, no job has been
    started and nothing written: if it is the first, no mkdirSync has
    succeeded; if it is the second, only the one on the output folder
    has, when that folder was absent.  So a call whose requested names
    are refused is rejected with that InvalidRequest error, empty file
    name or not. *)
Theorem checks_order inputFileName progressCallback resolutionArray video_id
  qualityArray :
  let quality := catalog_in_use qualityArray in
  let inputPath := path_join w (inputFolder this) inputFileName in
  let uniq := uniqueOutputPath w this video_id in
  let first :=
    if existsSync w [] (outputPath this) then []
    else [Mkdir (outputPath this)] in
  let call := run (hlsConvert w this inputFileName progressCallback
                     resolutionArray video_id qualityArray) in
  (forall f, resolve quality resolutionArray = Err f ->
             call = ([], Err f)
             /\ kind f = match present (requested resolutionArray) with
                         | [] => EmptySelection
                         | _ :: _ => InvalidRequest
                         end)
  /\ (forall finalQuality,
        resolve quality resolutionArray = Ok finalQuality ->
        inputFileName = "" ->
        call = ([], Err FileNameRequired))
  /\ (forall finalQuality,
        resolve quality resolutionArray = Ok finalQuality ->
        inputFileName <> "" ->
        existsSync w [] inputPath = false ->
        call = ([], Err (InputMissing inputPath)))
  /\ (forall finalQuality err,
        resolve quality resolutionArray = Ok finalQuality ->
        inputFileName <> "" ->
        existsSync w [] inputPath = true ->
        existsSync w [] (outputPath this) = false ->
        mkdirSync w [] (outputPath this) = Some err ->
        call = ([], Err (FsException err)))
  /\ (forall finalQuality err,
        resolve quality resolutionArray = Ok finalQuality ->
        inputFileName <> "" ->
        existsSync w [] inputPath = true ->
        existsSync w [] (outputPath this) = true
        \/ mkdirSync w [] (outputPath this) = None ->
        existsSync w first uniq = false ->
        mkdirSync w first uniq = Some err ->
        call = (first, Err (FsException err))).
Proof.
  cbv zeta. rewrite hlsConvert_run. split; [|split; [|split; [|split]]].
  - intros f Hf. split; [now rewrite Hf|].
    destruct (resolve_err _ _ _ Hf) as [[Hk Hne] | [-> ->]]; [|reflexivity].
    rewrite Hk. destruct (present (requested resolutionArray));
      [congruence | reflexivity].
  - intros fq -> ->. reflexivity.
  - intros fq -> Hname. apply String.eqb_neq in Hname. rewrite Hname.
    cbv zeta. now intros ->.
  - intros fq err -> Hname. apply String.eqb_neq in Hname. rewrite Hname.
    cbv zeta. intros -> Hout Hmk.
    unfold produce, bind. now rewrite ensure_dir_run, Hout, Hmk.
  - intros fq err -> Hname. apply String.eqb_neq in Hname. rewrite Hname.
    cbv zeta. intros -> Hfirst.
    unfold produce, bind. rewrite ensure_dir_run.
    destruct (existsSync w [] (outputPath this)) eqn:Hout.
    + intros Hu Hmk. now rewrite ensure_dir_run, Hu, Hmk.
    + destruct Hfirst as [Hfirst | Hfirst]; [discriminate|].
      rewrite Hfirst. cbn [app]. intros Hu Hmk.
      now rewrite ensure_dir_run, Hu, Hmk.
Qed.

(** C7 (amended). A call whose input file is missing is rejected without
    having done anything: no folder made, nothing run, nothing written
    or removed.  The rejection is SourceNotFound when the checks that
    come first pass (the requested names resolve and the file name is
    not empty); otherwise it is the rejection of the first of them that
    fails. *)
Theorem missing_input_no_effect inputFileName progressCallback resolutionArray
  video_id qualityArray :
  existsSync w [] (path_join w (inputFolder this) inputFileName) = false ->
  (exists f,
     run (hlsConvert w this inputFileName progressCallback resolutionArray
            video_id qualityArray) = ([], Err f))
  /\ (forall finalQuality,
        resolve (catalog_in_use qualityArray) resolutionArray = Ok finalQuality ->
        inputFileName <> "" ->
        run (hlsConvert w this inputFileName progressCallback resolutionArray
               video_id qualityArray)
        = ([], Err (InputMissing (path_join w (inputFolder this) inputFileName)))
        /\ kind (InputMissing (path_join w (inputFolder this) inputFileName))
           = SourceNotFound)
  /\ (forall f,
        resolve (catalog_in_use qualityArray) resolutionArray = Err f ->
        run (hlsConvert w this inputFileName progressCallback resolutionArray
               video_id qualityArray) = ([], Err f)
        /\ kind f <> SourceNotFound)
  /\ (forall finalQuality,
        resolve (catalog_in_use qualityArray) resolutionArray = Ok finalQuality ->
        inputFileName = "" ->
        run (hlsConvert w this inputFileName progressCallback resolutionArray
               video_id qualityArray) = ([], Err FileNameRequired)
        /\ kind FileNameRequired <> SourceNotFound).
Proof.
  intros Hmissing. rewrite hlsConvert_run. split; [|split; [|split]].
  - destruct (resolve _ resolutionArray) as [fq|f]; [|eauto].
    destruct (inputFileName =? "")%string; [eauto|].
    cbv zeta. rewrite Hmissing. eauto.
  - intros fq -> Hname. apply String.eqb_neq in Hname. rewrite Hname.
    cbv zeta. rewrite Hmissing. split; reflexivity.
  - intros f Hf. rewrite Hf. split; [reflexivity|].
    destruct (resolve_kind _ _ _ Hf) as [-> | ->]; discriminate.
  - intros fq -> ->. split; [reflexivity | discriminate].
Qed.

(** Whatever catalog the caller supplies, the call works with an empty
    one: it refuses the first requested name, or rejects at line 145 a
    request that holds none. *)
Lemma custom_catalog_rejected inputFileName progressCallback resolutionArray
  video_id (q : Quality) (qs : list Quality) :
  catalog_in_use (Some (q :: qs)) = []
  /\ exists f,
       run (hlsConvert w this inputFileName progressCallback resolutionArray
              video_id (Some (q :: qs))) = ([], Err f)
       /\ kind f = match present (requested resolutionArray) with
                   | [] => EmptySelection
                   | _ :: _ => InvalidRequest
                   end.
Proof.
  split; [reflexivity|]. rewrite hlsConvert_run. simpl catalog_in_use.
  destruct (resolve [] resolutionArray) as [fq|f] eqn:Hr.
  - exfalso. assert (Hne := resolve_ok_nonempty _ _ _ Hr).
    unfold resolve in Hr. rewrite requested_length in Hr.
    destruct (existsb _ (present (requested resolutionArray)));
      [discriminate|].
    destruct (check_names [] (present (requested resolutionArray)));
      [|discriminate].
    cbn in Hr. discriminate.
  - exists f. split; auto.
    destruct (resolve_err _ _ _ Hr) as [[Hk Hne] | [-> ->]]; [|reflexivity].
    rewrite Hk. destruct (present (requested resolutionArray));
      [congruence | reflexivity].
Qed.

(** C1. The call of the README, with its one-profile custom catalog and
    the request 360: the supplied catalog is not used, the working
    catalog is empty, and the call is rejected because 360 matches no
    name.  So it goes for every non-empty catalog supplied: nothing is
    done and the call is rejected, with an InvalidRequest error whenever
    the request in force holds a name (with the error of line 145 for an
    array of holes). *)
Theorem readme_custom_qualities_rejected :
  (catalog_in_use (Some readme_qualities) = []
   /\ run (hlsConvert w this "input.mp4" false (Some (dense [VString "360"]))
             None (Some readme_qualities))
      = ([], Err (ResolutionNoMatch (VString "360") []))
   /\ message (ResolutionNoMatch (VString "360") [])
      = "Invalid resolution name: 360. It does not match any quality name. Valid names are .")
  /\ forall inputFileName progressCallback resolutionArray video_id
            (q : Quality) (qs : list Quality),
       exists f,
         run (hlsConvert w this inputFileName progressCallback resolutionArray
                video_id (Some (q :: qs))) = ([], Err f)
         /\ kind f = match present (requested resolutionArray) with
                     | [] => EmptySelection
                     | _ :: _ => InvalidRequest
                     end.
Proof.
  split.
  - rewrite hlsConvert_run. repeat split.
  - intros. now apply custom_catalog_rejected.
Qed.

End Checks.

Lemma missing_input_no_effect_witness :
  (exists f,
     run (hlsConvert example_world example_converter "absent.mp4" true None
            None None) = ([], Err f))
  /\ run (hlsConvert example_world example_converter "absent.mp4" true None
            None None)
     = ([], Err (InputMissing "video/absent.mp4"))
  /\ kind (InputMissing "video/absent.mp4") = SourceNotFound.
Proof.
  destruct (missing_input_no_effect example_world example_converter
              "absent.mp4" true None None None eq_refl)
    as [Hrejected [Hkind _]].
  split; [exact Hrejected|].
  apply (Hkind (select default_quality default_resolution));
    [reflexivity | discriminate].
Defined.

Example missing_input_call :
  run (hlsConvert example_world example_converter "absent.mp4" true None None None)
  = ([], Err (InputMissing "video/absent.mp4")).
Proof. reflexivity. Qed.

(** C7, as stated, fails: the input file is missing and the unknown name
    999 is requested; the rejection is the InvalidRequest of the name
    check, which comes first, not SourceNotFound. *)
Lemma missing_input_invalid_request :
  existsSync example_world [] "video/absent.mp4" = false
  /\ run (hlsConvert example_world example_converter "absent.mp4" false
            (Some (dense [VString "999"])) None None)
     = ([], Err (ResolutionNoMatch (VString "999")
                   (map (fun q => of_field (name q)) default_quality)))
  /\ fails_as SourceNotFound
       (snd (run (hlsConvert example_world example_converter "absent.mp4"
                    false (Some (dense [VString "999"])) None None))) = false
  /\ fails_as InvalidRequest
       (snd (run (hlsConvert example_world example_converter "absent.mp4"
                    false (Some (dense [VString "999"])) None None))) = true.
Proof. repeat split. Qed.

Lemma field_check_ignores_names_witness :
  validate shared_name_qualities = []
  /\ forall inputFileName progressCallback resolutionArray video_id,
       fails_as InvalidProfile
         (snd (run (hlsConvert example_world example_converter inputFileName
                      progressCallback resolutionArray video_id
                      (Some shared_name_qualities)))) = false.
Proof.
  apply (field_check_ignores_names example_world example_converter
           shared_name_qualities).
  repeat constructor.
Defined.

(** C2, as stated, fails: two profiles share the name 360, every field is
    there, and the call is not rejected with InvalidProfile (the field
    check reports nothing; the rejection is the one of line 135). *)
Lemma shared_names_not_invalid_profile :
  map name shared_name_qualities = [Some "360"; Some "360"]
  /\ validate shared_name_qualities = []
  /\ run (hlsConvert example_world example_converter "input.mp4" false
            (Some (dense [VString "360"])) None (Some shared_name_qualities))
     = ([], Err (ResolutionNoMatch (VString "360") []))
  /\ fails_as InvalidProfile
       (snd (run (hlsConvert example_world example_converter "input.mp4" false
                    (Some (dense [VString "360"])) None
                    (Some shared_name_qualities))))
     = false.
Proof. repeat split. Qed.

Lemma checks_order_witness :
  (run (hlsConvert example_world example_converter "" false
          (Some (dense [VString "999"])) None None)
   = ([], Err (ResolutionNoMatch (VString "999")
                 (map (fun q => of_field (name q)) default_quality)))
   /\ kind (ResolutionNoMatch (VString "999")
              (map (fun q => of_field (name q)) default_quality))
      = InvalidRequest)
  /\ run (hlsConvert example_world example_converter "" false None None None)
     = ([], Err FileNameRequired)
  /\ run (hlsConvert example_world example_converter "absent.mp4" false None
            None None)
     = ([], Err (InputMissing "video/absent.mp4"))
  /\ run (hlsConvert readonly_world example_converter "input.mp4" false None
            None None)
     = ([], Err (FsException "EACCES: permission denied"))
  /\ run (hlsConvert nested_readonly_world example_converter "input.mp4" false
            None (Some "run1") None)
     = ([Mkdir "output"], Err (FsException "EACCES: permission denied")).
Proof.
  split; [|split; [|split; [|split]]].
  - apply (proj1 (checks_order example_world example_converter "" false
                    (Some (dense [VString "999"])) None None)).
    reflexivity.
  - apply (proj1 (proj2 (checks_order example_world example_converter "" false
                           None None None))
             (select default_quality default_resolution)); reflexivity.
  - apply (proj1 (proj2 (proj2 (checks_order example_world example_converter
                                  "absent.mp4" false None None None)))
             (select default_quality default_resolution));
      [reflexivity | discriminate | reflexivity].
  - apply (proj1 (proj2 (proj2 (proj2 (checks_order readonly_world
                                         example_converter "input.mp4" false
                                         None None None))))
             (select default_quality default_resolution));
      [reflexivity | discriminate | reflexivity | reflexivity | reflexivity].
  - apply (proj2 (proj2 (proj2 (proj2 (checks_order nested_readonly_world
                                         example_converter "input.mp4" false
                                         None (Some "run1") None))))
             (select default_quality default_resolution));
      [reflexivity | discriminate | reflexivity | now right | reflexivity
      | reflexivity].
Defined.

(** C3, as stated, fails: with an empty file name and the unknown name
    999, the rejection is the InvalidRequest of the name check, not the
    one of the empty file name. *)
Lemma empty_file_name_checked_second :
  run (hlsConvert example_world example_converter "" false
         (Some (dense [VString "999"])) None None)
  = ([], Err (ResolutionNoMatch (VString "999")
                (map (fun q => of_field (name q)) default_quality)))
  /\ fails_as EmptySourceName
       (snd (run (hlsConvert example_world example_converter "" false
                    (Some (dense [VString "999"])) None None))) = false
  /\ fails_as InvalidRequest
       (snd (run (hlsConvert example_world example_converter "" false
                    (Some (dense [VString "999"])) None None))) = true.
Proof. repeat split. Qed.

(** ** Numbers in the master playlist *)

Section Numbers.

Lemma string_app_assoc (a b c : string) :
  ((a ++ b) ++ c = a ++ b ++ c)%string.
Proof. induction a as [|x a IH]; simpl; [reflexivity | now rewrite IH]. Qed.

Lemma not_digit_no_value (c : ascii) :
  is_decimal_digit c = false -> digit_value 10 c = None.
Proof.
  unfold is_decimal_digit, digit_value. intros ->.
  destruct ((97 <=? _)%Z && _) eqn:Hlow.
  - apply andb_prop in Hlow as [H1 H2].
    apply Z.leb_le in H1.
    destruct (_ - 87 <? 10)%Z eqn:Hlt; [apply Z.ltb_lt in Hlt; lia | reflexivity].
  - destruct ((65 <=? _)%Z && _) eqn:Hup.
    + apply andb_prop in Hup as [H1 H2].
      apply Z.leb_le in H1.
      destruct (_ - 55 <? 10)%Z eqn:Hlt; [apply Z.ltb_lt in Hlt; lia | reflexivity].
    + reflexivity.
Qed.

(** Evaluates [digit_value] at the characters written in the goal. *)
Ltac eval_digit_value :=
  repeat match goal with
  | |- context [digit_value ?r (Ascii ?b0 ?b1 ?b2 ?b3 ?b4 ?b5 ?b6 ?b7)] =>
      let v := eval vm_compute in
        (digit_value r (Ascii b0 b1 b2 b3 b4 b5 b6 b7)) in
      change (digit_value r (Ascii b0 b1 b2 b3 b4 b5 b6 b7)) with v
  end.

Lemma digits_stop (rest : string) (acc : option Z) :
  starts_with_digit rest = false -> digits 10 rest acc = acc.
Proof.
  destruct rest as [|c rest]; simpl; auto.
  intros Hc. now rewrite (not_digit_no_value _ Hc).
Qed.

Lemma digits_uint (u : Decimal.uint) (rest : string) (a : Z) :
  starts_with_digit rest = false ->
  digits 10 (NilEmpty.string_of_uint u ++ rest) (Some a) = Some (uint_acc u a).
Proof.
  intros Hrest. revert a.
  induction u as [|u IH|u IH|u IH|u IH|u IH|u IH|u IH|u IH|u IH|u IH];
    intros a; [now apply digits_stop | ..];
    cbn [NilEmpty.string_of_uint append digits uint_acc];
    eval_digit_value; cbv iota; rewrite IH; do 2 f_equal; lia.
Qed.

Lemma uint_acc_pos (u : Decimal.uint) (p : positive) :
  uint_acc u (Z.pos p) = Z.pos (Pos.of_uint_acc u p).
Proof.
  revert p.
  induction u as [|u IH|u IH|u IH|u IH|u IH|u IH|u IH|u IH|u IH|u IH];
    intros p; [reflexivity | ..];
    cbn [uint_acc Pos.of_uint_acc]; rewrite <- IH; f_equal; lia.
Qed.

Lemma uint_acc_0 (u : Decimal.uint) : uint_acc u 0 = Z.of_uint u.
Proof.
  unfold Z.of_uint.
  induction u as [|u IH|u IH|u IH|u IH|u IH|u IH|u IH|u IH|u IH|u IH];
    [reflexivity | exact IH | ..];
    cbn [uint_acc Pos.of_uint Z.of_N]; rewrite <- uint_acc_pos; reflexivity.
Qed.

Lemma of_uint_nonneg (u : Decimal.uint) : (0 <= Z.of_uint u)%Z.
Proof. unfold Z.of_uint. apply N2Z.is_nonneg. Qed.

(** Digits first: [parseInt] reads them, in base ten, and nothing else. *)
Lemma parseInt_uint (u : Decimal.uint) (rest : string) :
  u <> Decimal.Nil ->
  starts_with_digit rest = false ->
  hex_prefix (NilEmpty.string_of_uint u ++ rest) = false ->
  parseInt (NilEmpty.string_of_uint u ++ rest) = exact (Z.of_uint u).
Proof.
  intros Hu Hrest Hhex. unfold parseInt.
  destruct u as [|u|u|u|u|u|u|u|u|u|u]; [congruence | ..];
    simpl NilEmpty.string_of_uint in *; simpl append in *;
    simpl trim_start; cbv iota beta; simpl Ascii.eqb; cbv iota beta;
    simpl orb; cbv iota beta; rewrite Hhex.
  all: cbn [digits]; eval_digit_value; cbv iota.
  all: rewrite (digits_uint _ _ _ Hrest), <- uint_acc_0.
  all: cbn [uint_acc]; f_equal; rewrite Z.mul_1_l; f_equal; lia.
Qed.

Lemma hex_prefix_kilo (u : Decimal.uint) :
  u <> Decimal.Nil -> hex_prefix (NilEmpty.string_of_uint u ++ "k") = false.
Proof.
  destruct u as [|u|u|u|u|u|u|u|u|u|u]; [congruence | ..]; intros _;
    destruct u; reflexivity.
Qed.

Variable w : World.

(** Leading decimal digits decide the bandwidth. *)
Lemma bandwidth_digits (q : Quality) (u : Decimal.uint) (rest : string) :
  bitrate q = Some (NilEmpty.string_of_uint u ++ rest)%string ->
  u <> Decimal.Nil ->
  starts_with_digit rest = false ->
  hex_prefix (NilEmpty.string_of_uint u ++ rest) = false ->
  (Z.of_uint u * 1000 <= 2 ^ 53)%Z ->
  bandwidth w q = decimal (Z.of_uint u * 1000).
Proof.
  intros Hb Hu Hrest Hhex Hrange. unfold bandwidth. rewrite Hb.
  cbn [of_field to_string]. rewrite parseInt_uint by assumption.
  assert (Hpos := of_uint_nonneg u).
  unfold exact, mul.
  destruct (Z.abs (Z.of_uint u) <=? 2 ^ 53)%Z eqn:H1;
    [|apply Z.leb_gt in H1; lia].
  unfold exact.
  destruct (Z.abs (Z.of_uint u * 1000) <=? 2 ^ 53)%Z eqn:H2;
    [reflexivity | apply Z.leb_gt in H2; lia].
Qed.

End Numbers.

(** ** The text of the master playlist *)

Section Playlist.

Variable w : World.
Variable this : VideoConverter.

Implicit Types (q : Quality) (finalQuality : list Quality).

(** The two lines a quality contributes. *)
Lemma concat_entries finalQuality :
  finalQuality <> [] ->
  String.concat LF (map (playlist_entry w) finalQuality)
  = String.concat LF
      (flat_map (fun q => [stream_inf w q; to_string (of_field (file q))])
         finalQuality).
Proof.
  induction finalQuality as [|q [|q' l] IH]; intros Hne; [congruence | reflexivity |].
  assert (IH' := IH ltac:(discriminate)). clear IH.
  change (String.concat LF (map (playlist_entry w) (q :: q' :: l)))
    with (playlist_entry w q ++ LF
          ++ String.concat LF (map (playlist_entry w) (q' :: l)))%string.
  rewrite IH'. unfold playlist_entry at 1.
  rewrite !string_app_assoc. reflexivity.
Qed.

Lemma masterPlaylist_lines finalQuality :
  finalQuality <> [] ->
  masterPlaylist w finalQuality
  = String.concat LF
      ("#EXTM3U"
       :: flat_map (fun q => [stream_inf w q; to_string (of_field (file q))])
            finalQuality).
Proof.
  intros Hne. unfold masterPlaylist, masterPlaylistContent, masterPlaylistHeader.
  rewrite concat_entries by assumption.
  destruct finalQuality as [|q l]; [congruence|].
  cbn [flat_map app String.concat]. now rewrite string_app_assoc.
Qed.

Lemma contains_here (sub before after : string) :
  contains sub (before ++ sub ++ after).
Proof. now exists before, after. Qed.

Lemma contains_after (sub s before : string) :
  contains sub s -> contains sub (before ++ s).
Proof.
  intros [b [a ->]]. exists (before ++ b)%string, a.
  now rewrite string_app_assoc.
Qed.

Lemma contains_before (sub s after : string) :
  contains sub s -> contains sub (s ++ after).
Proof.
  intros [b [a ->]]. exists b, (a ++ after)%string.
  now rewrite !string_app_assoc.
Qed.

Lemma string_app_empty_r (s : string) : (s ++ "")%string = s.
Proof. induction s as [|c s IH]; simpl; [reflexivity | now rewrite IH]. Qed.

Lemma contains_concat (sep x : string) (l : list string) :
  In x l -> contains x (String.concat sep l).
Proof.
  induction l as [|y [|z l] IH]; intros Hin; [destruct Hin | |].
  - destruct Hin as [->|[]]. exists ""%string, ""%string.
    now rewrite string_app_empty_r.
  - change (String.concat sep (y :: z :: l))
      with (y ++ sep ++ String.concat sep (z :: l))%string.
    destruct Hin as [->|Hin].
    + apply (contains_here x "").
    + do 2 apply contains_after. now apply IH.
Qed.

(** The stream line of every quality stands in the playlist. *)
Lemma playlist_contains_stream_inf q finalQuality :
  In q finalQuality -> contains (stream_inf w q) (masterPlaylist w finalQuality).
Proof.
  intros Hin. unfold masterPlaylist, masterPlaylistContent.
  apply contains_after.
  assert (Hentry : contains (stream_inf w q) (playlist_entry w q)).
  { unfold playlist_entry. apply (contains_here _ ""). }
  destruct (contains_concat LF (playlist_entry w q)
              (map (playlist_entry w) finalQuality) (in_map _ _ _ Hin))
    as [b [a ->]].
  apply contains_after, contains_before, Hentry.
Qed.

Lemma stream_inf_NaN q :
  bandwidth w q = "NaN" -> contains "BANDWIDTH=NaN" (stream_inf w q).
Proof.
  intros Hb. unfold stream_inf. rewrite Hb.
  exists "#EXT-X-STREAM-INF:"%string,
         (",RESOLUTION=" ++ to_string (of_field (resolution q)))%string.
  reflexivity.
Qed.

Lemma contains_trans (a b c : string) :
  contains a b -> contains b c -> contains a c.
Proof.
  intros Hab [x [y ->]]. now apply contains_after, contains_before.
Qed.

(** C5. For a resolved list of qualities, the master playlist is the line
    #EXTM3U followed, for each quality in order, by the line
    #EXT-X-STREAM-INF:BANDWIDTH=b,RESOLUTION=WxH and the line of its
    playlist file, the lines separated by line feeds; for a bitrate
    written as decimal digits followed by k, b is the decimal text of
    the digits' value times 1000; and a call that succeeds has started a
    job for every resolved quality, has seen every job end, and has
    written exactly this text, last, to master.m3u8 in the folder of the
    conversion: between the start of the jobs and the write there are
    only calls of the callback and attempts to delete the input. *)
Theorem master_playlist_format (quality : list Quality)
  (resolutionArray : option (list (option value))) finalQuality :
  resolve quality resolutionArray = Ok finalQuality ->
  masterPlaylist w finalQuality
  = String.concat LF
      ("#EXTM3U"
       :: flat_map
            (fun q =>
               [("#EXT-X-STREAM-INF:BANDWIDTH=" ++ bandwidth w q
                 ++ ",RESOLUTION=" ++ to_string (of_field (resolution q)))%string;
                to_string (of_field (file q))])
            finalQuality)
  /\ (forall q (u : Decimal.uint),
        In q finalQuality ->
        bitrate q = Some (NilEmpty.string_of_uint u ++ "k")%string ->
        u <> Decimal.Nil ->
        (Z.of_uint u * 1000 <= 2 ^ 53)%Z ->
        bandwidth w q = decimal (Z.of_uint u * 1000))
  /\ (forall inputFileName progressCallback video_id qualityArray
             (t : list Effect),
        catalog_in_use qualityArray = quality ->
        run (hlsConvert w this inputFileName progressCallback resolutionArray
               video_id qualityArray) = (t, Ok tt) ->
        let inputPath := path_join w (inputFolder this) inputFileName in
        let launch := RunFfmpeg inputPath (uniqueOutputPath w this video_id) in
        exists dirs handlers,
          folders w this video_id dirs
          /\ ffmpeg_settle w (dirs ++ map launch finalQuality) = None
          /\ Forall handler_effect handlers
          /\ t = dirs ++ map launch finalQuality ++ handlers
                 ++ [WriteFile
                       (path_join w (uniqueOutputPath w this video_id)
                          "master.m3u8")
                       (masterPlaylist w finalQuality)]).
Proof.
  intros Hres. split; [|split].
  - apply masterPlaylist_lines. eapply resolve_ok_nonempty, Hres.
  - intros q u _ Hb Hu Hrange.
    apply (bandwidth_digits w q u "k"); auto using hex_prefix_kilo.
  - intros inputFileName progressCallback video_id qualityArray t Hcat.
    rewrite hlsConvert_run, Hcat, Hres. cbv zeta.
    destruct (inputFileName =? "")%string; [discriminate|].
    destruct (existsSync w [] _); [|discriminate].
    intros Hp. apply produce_ok in Hp.
    destruct Hp as [dirs [Hdirs [Hsettle Ht]]].
    exists dirs,
      (flat_map (end_effects this progressCallback
                   (path_join w (inputFolder this) inputFileName))
         finalQuality).
    split; [exact Hdirs|]. split; [exact Hsettle|]. split; [|exact Ht].
    clear. induction finalQuality as [|q l IH]; [constructor|].
    cbn [flat_map]. apply Forall_app. split; [|exact IH].
    unfold end_effects.
    destruct progressCallback, (truthy (inputVideoCleanUp this));
      repeat constructor.
Qed.

Lemma ladder_bitrates :
  Forall (fun q => exists z,
            (0 < z)%Z /\ bitrate q = Some (decimal z ++ "k")%string
            /\ bandwidth w q = decimal (z * 1000))
    default_quality.
Proof.
  assert (Hpairs :
    Forall (fun qz => (0 < snd qz)%Z
                      /\ bitrate (fst qz) = Some (decimal (snd qz) ++ "k")%string
                      /\ bandwidth w (fst qz) = decimal (snd qz * 1000))
      (combine default_quality ladder_kilobits)).
  { cbn. repeat (apply Forall_cons; [repeat split|]). apply Forall_nil. }
  assert (Hq : default_quality = map fst (combine default_quality ladder_kilobits))
    by reflexivity.
  rewrite Hq. apply Forall_map. eapply Forall_impl; [|exact Hpairs].
  intros [q z] H. now exists z.
Qed.

(** C10. A profile whose bitrate does not begin with a digit can only
    come from a supplied catalog, and a supplied catalog is never used:
    the call that supplies the profile with bitrate auto and asks for its
    name is rejected, and no playlist is written, where lines 230-232
    would have written BANDWIDTH=NaN.  Every call given a catalog is
    rejected with nothing written.  The profiles a call does resolve are
    those of the built-in ladder, whose bitrate is decimal digits
    followed by k and whose BANDWIDTH is the digits' value times 1000. *)
Theorem nan_bitrate_catalog_rejected :
  (starts_with_digit (to_string (of_field (bitrate q_auto))) = false
   /\ bandwidth w q_auto = "NaN"
   /\ contains "BANDWIDTH=NaN" (masterPlaylist w [q_auto])
   /\ lacks_field q_auto = false
   /\ run (hlsConvert w this "input.mp4" false (Some (dense [VString "360"]))
             None (Some [q_auto]))
      = ([], Err (ResolutionNoMatch (VString "360") []))
   /\ message (ResolutionNoMatch (VString "360") [])
      = "Invalid resolution name: 360. It does not match any quality name. Valid names are .")
  /\ (forall inputFileName progressCallback resolutionArray video_id
             (q : Quality) (qs : list Quality),
        exists f,
          run (hlsConvert w this inputFileName progressCallback
                 resolutionArray video_id (Some (q :: qs))) = ([], Err f))
  /\ (forall qualityArray resolutionArray finalQuality,
        resolve (catalog_in_use qualityArray) resolutionArray = Ok finalQuality ->
        Forall (fun q => In q default_quality
                         /\ exists z,
                              (0 < z)%Z
                              /\ bitrate q = Some (decimal z ++ "k")%string
                              /\ bandwidth w q = decimal (z * 1000))
          finalQuality).
Proof.
  split; [|split].
  - split; [reflexivity|]. split; [reflexivity|]. split.
    + apply (contains_trans _ (stream_inf w q_auto)).
      * apply (stream_inf_NaN q_auto). reflexivity.
      * apply playlist_contains_stream_inf. now left.
    + split; [reflexivity|]. rewrite hlsConvert_run. split; reflexivity.
  - intros inputFileName progressCallback resolutionArray video_id q qs.
    destruct (custom_catalog_rejected w this inputFileName progressCallback
                resolutionArray video_id q qs) as [_ [f [Hrun _]]].
    now exists f.
  - intros qualityArray resolutionArray finalQuality Hr.
    apply resolve_in_use_ladder in Hr.
    apply Forall_forall. intros q Hq.
    assert (Hin := subsequence_In _ _ _ Hr Hq).
    split; [exact Hin|].
    exact (proj1 (Forall_forall _ _) ladder_bitrates q Hin).
Qed.

End Playlist.

(** The playlist of the qualities 360 and 720. *)
Example master_playlist_360_720 :
  String.concat LF
    ["#EXTM3U";
     "#EXT-X-STREAM-INF:BANDWIDTH=800000,RESOLUTION=640x360";
     "360p.m3u8";
     "#EXT-X-STREAM-INF:BANDWIDTH=2800000,RESOLUTION=1280x720";
     "720p.m3u8"]
  = masterPlaylist example_world [q360; q720].
Proof. reflexivity. Qed.

Lemma master_playlist_format_witness :
  masterPlaylist example_world [q360; q720]
  = String.concat LF
      ["#EXTM3U";
       "#EXT-X-STREAM-INF:BANDWIDTH=800000,RESOLUTION=640x360";
       "360p.m3u8";
       "#EXT-X-STREAM-INF:BANDWIDTH=2800000,RESOLUTION=1280x720";
       "720p.m3u8"]
  /\ bandwidth example_world q360 = "800000"
  /\ exists dirs handlers,
       Forall handler_effect handlers
       /\ fst (run (hlsConvert example_world example_converter "input.mp4"
                      true (Some (dense [VString "720"; VString "360"]))
                      (Some "run1") None))
          = dirs
            ++ [RunFfmpeg "video/input.mp4" "output/run1" q360;
                RunFfmpeg "video/input.mp4" "output/run1" q720]
            ++ handlers
            ++ [WriteFile "output/run1/master.m3u8"
                  (masterPlaylist example_world [q360; q720])].
Proof.
  destruct (master_playlist_format example_world example_converter
              default_quality (Some (dense [VString "720"; VString "360"]))
              [q360; q720] eq_refl)
    as [Hlines [Hband Hcall]].
  split; [exact Hlines|]. split.
  - apply (Hband q360 (Decimal.D8 (Decimal.D0 (Decimal.D0 Decimal.Nil)))).
    + now left.
    + reflexivity.
    + discriminate.
    + vm_compute. discriminate.
  - destruct (Hcall "input.mp4" true (Some "run1") None
                (fst (run (hlsConvert example_world example_converter
                             "input.mp4" true
                             (Some (dense [VString "720"; VString "360"]))
                             (Some "run1") None)))
                eq_refl eq_refl) as [dirs [handlers [_ [_ [Hh Ht]]]]].
    exists dirs, handlers. split; [exact Hh | exact Ht].
Defined.

(** * Further properties of the call *)

Section Calls.

Variable w : World.
Variable this : VideoConverter.

Implicit Types (quality finalQuality : list Quality) (q : Quality)
  (f : Failure) (t : list Effect) (inputFileName inputPath : string)
  (progressCallback : bool) (resolutionArray : option (list (option value)))
  (video_id : option string) (qualityArray : option (list Quality)).

(** The jobs and the playlist, outcome by outcome. *)
Lemma encode_run progressCallback inputPath (uniq : string) finalQuality t :
  encode w this progressCallback inputPath uniq finalQuality t
  = let started := t ++ map (RunFfmpeg inputPath uniq) finalQuality in
    let ended :=
      started
      ++ flat_map (end_effects this progressCallback inputPath) finalQuality in
    match ffmpeg_settle w started with
    | Some err => (started, Err (EncoderError err))
    | None =>
        match writeFileSync w ended (path_join w uniq "master.m3u8")
                (masterPlaylist w finalQuality) with
        | Some err => (ended, Err (FsException err))
        | None =>
            (ended ++ [WriteFile (path_join w uniq "master.m3u8")
                         (masterPlaylist w finalQuality)], Ok tt)
        end
    end.
Proof.
  cbv zeta. unfold encode, bind at 1. rewrite for_each_emit.
  unfold bind at 1, observe at 1.
  destruct (ffmpeg_settle w _) as [err|]; [reflexivity|].
  unfold bind at 1. rewrite for_each_on_end. unfold bind, observe.
  now destruct (writeFileSync w _ _ _).
Qed.

(** With its folders ready, the call goes on to the jobs. *)
Lemma produce_ready progressCallback video_id inputPath finalQuality :
  dirs_ready w this video_id = true ->
  produce w this progressCallback video_id inputPath finalQuality []
  = encode w this progressCallback inputPath (uniqueOutputPath w this video_id)
      finalQuality (made_dirs w this video_id).
Proof.
  unfold dirs_ready, made_dirs, produce, bind.
  rewrite ensure_dir_run.
  destruct (existsSync w [] (outputPath this)); cbn [orb andb app].
  - rewrite ensure_dir_run.
    destruct (existsSync w [] (uniqueOutputPath w this video_id)); [reflexivity|].
    destruct (mkdirSync w [] (uniqueOutputPath w this video_id));
      [discriminate | reflexivity].
  - destruct (mkdirSync w [] (outputPath this)); [discriminate|].
    cbn [orb andb app]. rewrite ensure_dir_run.
    destruct (existsSync w [Mkdir (outputPath this)]
                (uniqueOutputPath w this video_id)); [reflexivity|].
    destruct (mkdirSync w [Mkdir (outputPath this)]
                (uniqueOutputPath w this video_id));
      [discriminate | reflexivity].
Qed.

(** A folder that cannot be made ends the call; at most the output folder
    has been made by then. *)
Lemma produce_not_ready progressCallback video_id inputPath finalQuality :
  dirs_ready w this video_id = false ->
  exists err d,
    produce w this progressCallback video_id inputPath finalQuality []
    = (d, Err (FsException err))
    /\ (d = []
        \/ (existsSync w [] (outputPath this) = false
            /\ d = [Mkdir (outputPath this)])).
Proof.
  unfold dirs_ready, produce, bind.
  rewrite ensure_dir_run.
  destruct (existsSync w [] (outputPath this)) eqn:Hout; cbn [orb andb app].
  - rewrite ensure_dir_run.
    destruct (existsSync w [] (uniqueOutputPath w this video_id));
      [discriminate|].
    destruct (mkdirSync w [] (uniqueOutputPath w this video_id)) as [err|];
      [|discriminate].
    intros _. exists err, []. auto.
  - destruct (mkdirSync w [] (outputPath this)) as [err|].
    + intros _. exists err, []. auto.
    + cbn [orb andb app]. rewrite ensure_dir_run.
      destruct (existsSync w [Mkdir (outputPath this)]
                  (uniqueOutputPath w this video_id)); [discriminate|].
      destruct (mkdirSync w [Mkdir (outputPath this)]
                  (uniqueOutputPath w this video_id)) as [err|];
        [|discriminate].
      intros _. exists err, [Mkdir (outputPath this)]. auto.
Qed.

(** Every outcome of a call, with its trace. *)
Lemma hlsConvert_outcomes inputFileName progressCallback resolutionArray
  video_id qualityArray :
  let call := run (hlsConvert w this inputFileName progressCallback
                     resolutionArray video_id qualityArray) in
  let inputPath := path_join w (inputFolder this) inputFileName in
  let uniq := uniqueOutputPath w this video_id in
  (exists f,
     resolve (catalog_in_use qualityArray) resolutionArray = Err f
     /\ call = ([], Err f))
  \/ exists finalQuality,
       resolve (catalog_in_use qualityArray) resolutionArray = Ok finalQuality
       /\ (call = ([], Err FileNameRequired)
           \/ call = ([], Err (InputMissing inputPath))
           \/ (exists err d,
                 call = (d, Err (FsException err))
                 /\ (d = []
                     \/ (existsSync w [] (outputPath this) = false
                         /\ d = [Mkdir (outputPath this)])))
           \/ (inputFileName <> ""
               /\ existsSync w [] inputPath = true
               /\ dirs_ready w this video_id = true
               /\ call = encode w this progressCallback inputPath uniq
                           finalQuality (made_dirs w this video_id))).
Proof.
  cbv zeta. rewrite hlsConvert_run.
  destruct (resolve (catalog_in_use qualityArray) resolutionArray) as [fq|f];
    [right; exists fq; split; [reflexivity|] | left; eauto].
  destruct (inputFileName =? "")%string eqn:Hname; [now left|]. cbv zeta.
  destruct (existsSync w [] _) eqn:Hin; [|right; now left].
  destruct (dirs_ready w this video_id) eqn:Hready.
  - do 3 right. split; [now apply String.eqb_neq|].
    split; [reflexivity|]. split; [reflexivity|]. now apply produce_ready.
  - right; right; left.
    destruct (produce_not_ready progressCallback video_id
                (path_join w (inputFolder this) inputFileName) fq Hready)
      as [err [d [Hp Hd]]].
    exists err, d. now rewrite Hp.
Qed.

Lemma check_names_strings quality (resolution : list value) f :
  existsb (fun res => negb (typeof_string res)) resolution = false ->
  check_names quality resolution = Err f ->
  live_rejection f = true.
Proof.
  induction resolution as [|res rest IH]; simpl; [discriminate|].
  destruct (typeof_string res); simpl; [|discriminate].
  intros Hrest. destruct (existsb _ quality); simpl; auto.
  intros Heq. injection Heq as <-. reflexivity.
Qed.

Lemma resolve_err_live quality resolutionArray f :
  resolve quality resolutionArray = Err f -> live_rejection f = true.
Proof.
  unfold resolve. rewrite requested_length.
  destruct (existsb _ (present (requested resolutionArray))) eqn:Hstr.
  - intros Heq. injection Heq as <-. reflexivity.
  - destruct (check_names quality (present (requested resolutionArray)))
      as [[]|g] eqn:Hc.
    + destruct (length _ =? 0)%nat; [|discriminate].
      intros Heq. injection Heq as <-. reflexivity.
    + intros Heq. injection Heq as <-. eapply check_names_strings; eassumption.
Qed.

Lemma catalog_in_use_named qualityArray :
  Forall (fun q => name q <> None) (catalog_in_use qualityArray).
Proof.
  assert (Hladder : Forall (fun q => name q <> None) default_quality).
  { unfold default_quality.
    repeat (apply Forall_cons; [discriminate|]). apply Forall_nil. }
  destruct qualityArray as [[|q0 l0]|]; cbn [catalog_in_use];
    [exact Hladder | apply Forall_nil | exact Hladder].
Qed.

(** A request that holds no element is rejected at line 145. *)
Lemma resolve_holes qualityArray resolutionArray :
  present (requested resolutionArray) = [] ->
  resolve (catalog_in_use qualityArray) resolutionArray
  = Err NoValidResolutions.
Proof.
  intros Hnone. unfold resolve. rewrite requested_length, Hnone.
  cbn [existsb check_names].
  rewrite select_holes by (auto using catalog_in_use_named). reflexivity.
Qed.

(** X1. A call ends in success or in one of seven rejections: a request
    element that is not a string, a requested name that matches no
    profile, a request that holds no element, an empty file name, a
    missing input file, an exception of the file system, an error of the
    encoder.  The rejection of line 145 is the outcome exactly for a
    request that is a non-empty array of holes.  The rejections written
    at lines 110, 122 and 132 are never the outcome. *)
Theorem call_rejections inputFileName progressCallback resolutionArray video_id
  qualityArray :
  match snd (run (hlsConvert w this inputFileName progressCallback
                    resolutionArray video_id qualityArray)) with
  | Ok _ =>
      ~ exists a, resolutionArray = Some a /\ a <> []
                  /\ Forall (fun slot => slot = None) a
  | Err f =>
      live_rejection f = true
      /\ (f = NoValidResolutions
          <-> exists a, resolutionArray = Some a /\ a <> []
                        /\ Forall (fun slot => slot = None) a)
  end.
Proof.
  assert (Hpn := present_none resolutionArray).
  destruct (hlsConvert_outcomes inputFileName progressCallback resolutionArray
              video_id qualityArray)
    as [[f [Hr ->]] | [fq [Hr Hcall]]].
  - cbn [snd]. split; [eapply resolve_err_live, Hr|].
    rewrite <- Hpn.
    destruct (resolve_err _ _ _ Hr) as [[Hk Hne] | [-> Hnone]].
    + split; [intros ->; discriminate Hk|].
      intros Hnone. congruence.
    + split; auto.
  - assert (Hne : present (requested resolutionArray) <> []).
    { intros Hnone.
      rewrite (resolve_holes qualityArray resolutionArray Hnone) in Hr.
      discriminate. }
    assert (Hother : forall f, f <> NoValidResolutions ->
              live_rejection f = true ->
              live_rejection f = true
              /\ (f = NoValidResolutions
                  <-> exists a, resolutionArray = Some a /\ a <> []
                                /\ Forall (fun slot => slot = None) a)).
    { intros f Hf Hlive. split; [exact Hlive|]. rewrite <- Hpn.
      split; congruence. }
    destruct Hcall as [-> | [-> | [[err [d [-> _]]] | [_ [_ [_ ->]]]]]];
      cbn [snd]; try (apply Hother; [discriminate | reflexivity]).
    rewrite encode_run. cbv zeta.
    destruct (ffmpeg_settle w _); cbn [snd];
      [apply Hother; [discriminate | reflexivity]|].
    destruct (writeFileSync w _ _ _); cbn [snd];
      [apply Hother; [discriminate | reflexivity]|].
    now rewrite <- Hpn.
Qed.

Lemma Forall_map_intro {A B} (P : B -> Prop) (g : A -> B) (l : list A) :
  (forall x, In x l -> P (g x)) -> Forall P (map g l).
Proof.
  intros H. apply Forall_forall. intros y Hy.
  apply in_map_iff in Hy as [x [<- Hx]]. auto.
Qed.

Lemma Forall_flat_map_intro {A B} (P : B -> Prop) (g : A -> list B) (l : list A) :
  (forall x, In x l -> Forall P (g x)) -> Forall P (flat_map g l).
Proof.
  intros H. apply Forall_forall. intros y Hy.
  apply in_flat_map in Hy as [x [Hx Hy]].
  specialize (H x Hx). rewrite Forall_forall in H. auto.
Qed.

(** X2. Whatever its outcome, a call only does this: make the output
    folder and the folder of the conversion; run ffmpeg on the input
    file, in that folder, for a profile that subset resolution returned;
    call the callback, when one was passed, for such a profile; try to
    delete the input file, when cleanup is on; write master.m3u8 in the
    folder of the conversion with the playlist of the resolved profiles.
    The field check leaves no rejected promise behind. *)
Theorem call_effects_permitted inputFileName progressCallback resolutionArray
  video_id qualityArray :
  Forall (permitted w this inputFileName progressCallback resolutionArray
            video_id qualityArray)
    (fst (run (hlsConvert w this inputFileName progressCallback
                 resolutionArray video_id qualityArray))).
Proof.
  destruct (hlsConvert_outcomes inputFileName progressCallback resolutionArray
              video_id qualityArray)
    as [[f [Hr ->]] | [fq [Hr [-> | [-> | [[err [d [-> Hd]]] | [_ [_ [_ ->]]]]]]]]];
    try (now constructor).
  - destruct Hd as [-> | [_ ->]];
      repeat (apply Forall_cons; [simpl; auto|]); apply Forall_nil.
  - assert (Hdirs : Forall (permitted w this inputFileName progressCallback
                              resolutionArray video_id qualityArray)
                      (made_dirs w this video_id)).
    { unfold made_dirs. destruct (existsSync w [] (outputPath this)); simpl;
        destruct (existsSync w _ (uniqueOutputPath w this video_id));
        repeat (apply Forall_cons; [simpl; auto|]); apply Forall_nil. }
    assert (Hjobs : Forall (permitted w this inputFileName progressCallback
                              resolutionArray video_id qualityArray)
                      (map (RunFfmpeg (path_join w (inputFolder this) inputFileName)
                              (uniqueOutputPath w this video_id)) fq)).
    { apply Forall_map_intro. intros q Hq. simpl. eauto. }
    assert (Hends : Forall (permitted w this inputFileName progressCallback
                              resolutionArray video_id qualityArray)
                      (flat_map (end_effects this progressCallback
                                   (path_join w (inputFolder this) inputFileName))
                         fq)).
    { apply Forall_flat_map_intro. intros q Hq. unfold end_effects.
      destruct progressCallback, (truthy (inputVideoCleanUp this)) eqn:Hclean;
        simpl; repeat (apply Forall_cons; [simpl; eauto 6|]); apply Forall_nil. }
    rewrite encode_run. cbv zeta.
    destruct (ffmpeg_settle w _).
    + cbn [fst]. rewrite Forall_app. auto.
    + destruct (writeFileSync w _ _ _); cbn [fst]; rewrite !Forall_app;
        [tauto|].
      repeat split; auto.
      apply Forall_cons; [simpl; eauto | apply Forall_nil].
Qed.

(** X3. A call rejected by one of its checks (requested names, file
    name, input file) has done nothing: no folder made, no job started,
    nothing written or deleted. *)
Theorem check_failures_leave_nothing inputFileName progressCallback
  resolutionArray video_id qualityArray f :
  snd (run (hlsConvert w this inputFileName progressCallback resolutionArray
              video_id qualityArray)) = Err f ->
  kind f = InvalidRequest \/ kind f = EmptySourceName \/ kind f = SourceNotFound ->
  fst (run (hlsConvert w this inputFileName progressCallback resolutionArray
              video_id qualityArray)) = [].
Proof.
  destruct (hlsConvert_outcomes inputFileName progressCallback resolutionArray
              video_id qualityArray)
    as [[g [Hr ->]] | [fq [Hr [-> | [-> | [[err [d [-> Hd]]] | [_ [_ [_ ->]]]]]]]]];
    try reflexivity.
  - cbn [snd fst]. intros Heq. injection Heq as <-.
    intros [H | [H | H]]; discriminate H.
  - rewrite encode_run. cbv zeta.
    destruct (ffmpeg_settle w _) as [err|]; cbn [snd].
    + intros Heq. injection Heq as <-. intros [H | [H | H]]; discriminate H.
    + destruct (writeFileSync w _ _ _) as [err|]; cbn [snd]; [|discriminate].
      intros Heq. injection Heq as <-. intros [H | [H | H]]; discriminate H.
Qed.

Lemma made_dirs_cases video_id :
  made_dirs w this video_id = []
  \/ made_dirs w this video_id = [Mkdir (outputPath this)]
  \/ made_dirs w this video_id = [Mkdir (uniqueOutputPath w this video_id)]
  \/ made_dirs w this video_id
     = [Mkdir (outputPath this); Mkdir (uniqueOutputPath w this video_id)].
Proof.
  unfold made_dirs. destruct (existsSync w [] (outputPath this)); cbv zeta;
    destruct (existsSync w _ (uniqueOutputPath w this video_id)); cbn [app];
    auto.
Qed.

Lemma launched_app t u : launched (t ++ u) = launched t ++ launched u.
Proof. apply flat_map_app. Qed.

Lemma written_app t u : written (t ++ u) = written t ++ written u.
Proof. apply flat_map_app. Qed.

Lemma mkdirs_app t u : mkdirs (t ++ u) = mkdirs t ++ mkdirs u.
Proof. apply flat_map_app. Qed.

Lemma unlinks_app t u : unlinks (t ++ u) = unlinks t ++ unlinks u.
Proof. apply flat_map_app. Qed.

Lemma made_dirs_only video_id :
  launched (made_dirs w this video_id) = []
  /\ written (made_dirs w this video_id) = []
  /\ unlinks (made_dirs w this video_id) = []
  /\ percents (made_dirs w this video_id) = [].
Proof.
  destruct (made_dirs_cases video_id) as [-> | [-> | [-> | ->]]];
    repeat split.
Qed.

Lemma runs_only inputPath uniq (l : list Quality) :
  launched (map (RunFfmpeg inputPath uniq) l) = l
  /\ written (map (RunFfmpeg inputPath uniq) l) = []
  /\ unlinks (map (RunFfmpeg inputPath uniq) l) = []
  /\ mkdirs (map (RunFfmpeg inputPath uniq) l) = []
  /\ percents (map (RunFfmpeg inputPath uniq) l) = [].
Proof.
  induction l as [|q l [IH1 [IH2 [IH3 [IH4 IH5]]]]]; [repeat split|].
  cbn. unfold launched, written, unlinks, mkdirs, percents in *.
  rewrite IH1. repeat split; assumption.
Qed.

Lemma ends_only progressCallback inputPath (l : list Quality) :
  mkdirs (flat_map (end_effects this progressCallback inputPath) l) = []
  /\ launched (flat_map (end_effects this progressCallback inputPath) l) = []
  /\ written (flat_map (end_effects this progressCallback inputPath) l) = [].
Proof.
  induction l as [|q l [IH1 [IH2 IH3]]]; [repeat split|].
  cbn [flat_map]. rewrite mkdirs_app, launched_app, written_app, IH1, IH2, IH3.
  unfold end_effects.
  destruct progressCallback, (truthy (inputVideoCleanUp this)); repeat split.
Qed.

Lemma ends_unlinks progressCallback inputPath (l : list Quality) :
  unlinks (flat_map (end_effects this progressCallback inputPath) l)
  = if truthy (inputVideoCleanUp this) then repeat inputPath (length l)
    else [].
Proof.
  induction l as [|q l IH]; [now destruct (truthy _)|].
  cbn [flat_map]. rewrite unlinks_app, IH. unfold end_effects.
  destruct progressCallback, (truthy (inputVideoCleanUp this)); reflexivity.
Qed.

(** X4. A call succeeds exactly when the requested names resolve, the
    file name is not empty, the input file exists, no folder creation
    throws, every job ends and the write of the playlist does not
    throw. *)
Theorem call_succeeds_iff inputFileName progressCallback resolutionArray
  video_id qualityArray :
  snd (run (hlsConvert w this inputFileName progressCallback resolutionArray
              video_id qualityArray)) = Ok tt
  <-> exists finalQuality,
        let inputPath := path_join w (inputFolder this) inputFileName in
        let uniq := uniqueOutputPath w this video_id in
        let started :=
          made_dirs w this video_id
          ++ map (RunFfmpeg inputPath uniq) finalQuality in
        let ended :=
          started
          ++ flat_map (end_effects this progressCallback inputPath)
               finalQuality in
        resolve (catalog_in_use qualityArray) resolutionArray = Ok finalQuality
        /\ inputFileName <> ""
        /\ existsSync w [] inputPath = true
        /\ dirs_ready w this video_id = true
        /\ ffmpeg_settle w started = None
        /\ writeFileSync w ended (path_join w uniq "master.m3u8")
             (masterPlaylist w finalQuality) = None.
Proof.
  split.
  - destruct (hlsConvert_outcomes inputFileName progressCallback
                resolutionArray video_id qualityArray)
      as [[f [Hr ->]] | [fq [Hr [-> | [-> | [[err [d [-> _]]]
                                             | [Hname [Hin [Hready ->]]]]]]]]];
      try discriminate.
    rewrite encode_run. cbv zeta.
    destruct (ffmpeg_settle w _) eqn:Hsettle; [discriminate|].
    destruct (writeFileSync w _ _ _) eqn:Hwrite; [discriminate|].
    intros _. exists fq. cbv zeta. repeat split; auto.
  - intros [fq H]. cbv zeta in H.
    destruct H as [Hr [Hname [Hin [Hready [Hsettle Hwrite]]]]].
    rewrite hlsConvert_run, Hr. apply String.eqb_neq in Hname.
    rewrite Hname. cbv zeta. rewrite Hin, produce_ready by assumption.
    rewrite encode_run. cbv zeta. rewrite Hsettle, Hwrite. reflexivity.
Qed.

(** X5. When the checks pass and the folders are there but a job fails,
    the call is rejected with the error of the encoder: by then every
    job has been started, one per resolved profile in catalog order, and
    no master playlist is written. *)
Theorem encoder_failure inputFileName progressCallback resolutionArray video_id
  qualityArray finalQuality (err : string) :
  let inputPath := path_join w (inputFolder this) inputFileName in
  let uniq := uniqueOutputPath w this video_id in
  let call := run (hlsConvert w this inputFileName progressCallback
                     resolutionArray video_id qualityArray) in
  resolve (catalog_in_use qualityArray) resolutionArray = Ok finalQuality ->
  inputFileName <> "" ->
  existsSync w [] inputPath = true ->
  dirs_ready w this video_id = true ->
  ffmpeg_settle w (made_dirs w this video_id
                   ++ map (RunFfmpeg inputPath uniq) finalQuality) = Some err ->
  snd call = Err (EncoderError err)
  /\ launched (fst call) = finalQuality
  /\ written (fst call) = [].
Proof.
  cbv zeta. intros Hr Hname Hin Hready Hsettle.
  assert (Hcall :
    run (hlsConvert w this inputFileName progressCallback resolutionArray
           video_id qualityArray)
    = (made_dirs w this video_id
       ++ map (RunFfmpeg (path_join w (inputFolder this) inputFileName)
                 (uniqueOutputPath w this video_id)) finalQuality,
       Err (EncoderError err))).
  { rewrite hlsConvert_run, Hr. apply String.eqb_neq in Hname.
    rewrite Hname. cbv zeta. rewrite Hin, produce_ready by assumption.
    rewrite encode_run. cbv zeta. now rewrite Hsettle. }
  rewrite Hcall. cbn [fst snd]. split; [reflexivity|].
  rewrite launched_app, written_app.
  destruct (made_dirs_only video_id) as [-> [-> _]].
  destruct (runs_only (path_join w (inputFolder this) inputFileName)
              (uniqueOutputPath w this video_id) finalQuality)
    as [-> [-> _]].
  split; reflexivity.
Qed.


(** The trace of the jobs and the playlist, read for deletions and
    launches. *)
Lemma encode_readings progressCallback inputPath (uniq : string) finalQuality
  video_id :
  let call := encode w this progressCallback inputPath uniq finalQuality
                (made_dirs w this video_id) in
  launched (fst call) = finalQuality
  /\ (truthy (inputVideoCleanUp this) = false -> unlinks (fst call) = [])
  /\ (snd call = Ok tt ->
      unlinks (fst call)
      = if truthy (inputVideoCleanUp this)
        then repeat inputPath (length finalQuality) else []).
Proof.
  cbv zeta. rewrite encode_run. cbv zeta.
  destruct (made_dirs_only video_id) as [Hd1 [_ [Hd2 _]]].
  destruct (runs_only inputPath uniq finalQuality) as [Hr1 [_ [Hr2 _]]].
  destruct (ends_only progressCallback inputPath finalQuality) as [_ [He1 _]].
  assert (He2 := ends_unlinks progressCallback inputPath finalQuality).
  destruct (ffmpeg_settle w _); cbn [fst snd].
  - rewrite launched_app, unlinks_app, Hd1, Hd2, Hr1, Hr2.
    split; [reflexivity|]. split; [reflexivity | discriminate].
  - destruct (writeFileSync w _ _ _); cbn [fst snd];
      rewrite !launched_app, !unlinks_app, Hd1, Hd2, Hr1, Hr2, He1, He2;
      cbn [app launched unlinks flat_map]; rewrite ?app_nil_r;
      (split; [reflexivity|]); (split; [now intros -> | auto]);
      discriminate.
Qed.

(** X7. A converter whose cleanup setting is [false] or the empty string
    never tries to delete anything, whatever the call and its outcome. *)
Theorem no_cleanup_no_unlink inputFileName progressCallback resolutionArray
  video_id qualityArray :
  truthy (inputVideoCleanUp this) = false ->
  unlinks (fst (run (hlsConvert w this inputFileName progressCallback
                       resolutionArray video_id qualityArray))) = [].
Proof.
  intros Hoff.
  destruct (hlsConvert_outcomes inputFileName progressCallback
              resolutionArray video_id qualityArray)
    as [[f [Hr ->]] | [fq [Hr [-> | [-> | [[err [d [-> Hd]]]
                                           | [_ [_ [_ ->]]]]]]]]];
    try reflexivity.
  - now destruct Hd as [-> | [_ ->]].
  - now apply encode_readings.
Qed.

(** X8. With cleanup on, a call that succeeds has tried to delete the
    input file once for every profile it encoded: the ['end'] handler of
    each job makes its own attempt. *)
Theorem cleanup_once_per_job inputFileName progressCallback resolutionArray
  video_id qualityArray finalQuality t :
  truthy (inputVideoCleanUp this) = true ->
  resolve (catalog_in_use qualityArray) resolutionArray = Ok finalQuality ->
  run (hlsConvert w this inputFileName progressCallback resolutionArray
         video_id qualityArray) = (t, Ok tt) ->
  unlinks t
  = repeat (path_join w (inputFolder this) inputFileName) (length finalQuality)
  /\ (1 <= length (unlinks t) <= 13)%nat.
Proof.
  intros Hon Hr.
  assert (Hlen : (1 <= length finalQuality <= 13)%nat).
  { split.
    - apply resolve_ok_nonempty in Hr. destruct finalQuality; [congruence|].
      simpl. lia.
    - apply resolve_in_use_ladder in Hr.
      assert (Hsub : forall (l1 l2 : list Quality),
                l1 `subsequence_of` l2 -> (length l1 <= length l2)%nat).
      { induction 1; simpl; lia. }
      apply Hsub in Hr. exact Hr. }
  destruct (hlsConvert_outcomes inputFileName progressCallback
              resolutionArray video_id qualityArray)
    as [[f [Hr' ->]] | [fq [Hr' [-> | [-> | [[err [d [-> Hd]]]
                                            | [_ [_ [_ ->]]]]]]]]];
    try discriminate.
  rewrite Hr in Hr'. injection Hr' as <-. intros Hcall.
  destruct (encode_readings progressCallback
              (path_join w (inputFolder this) inputFileName)
              (uniqueOutputPath w this video_id) finalQuality video_id)
    as [_ [_ Hun]].
  rewrite Hcall in Hun. cbn [fst snd] in Hun.
  rewrite Hon in Hun. rewrite (Hun eq_refl), repeat_length. auto.
Qed.

(** X9. No two jobs a call starts share the name of their variant
    playlist, their segment pattern or their profile name, and no call
    starts more than thirteen: the profiles it runs ffmpeg for are
    distinct steps of the built-in ladder, in the order of the ladder. *)
Theorem jobs_outputs_distinct inputFileName progressCallback resolutionArray
  video_id qualityArray :
  let jobs := launched (fst (run (hlsConvert w this inputFileName
                                    progressCallback resolutionArray video_id
                                    qualityArray))) in
  jobs `subsequence_of` default_quality
  /\ NoDup (map file jobs)
  /\ NoDup (map segments jobs)
  /\ NoDup (map name jobs)
  /\ (length jobs <= 13)%nat.
Proof.
  cbv zeta.
  assert (Hladder : forall jobs, jobs `subsequence_of` default_quality ->
            jobs `subsequence_of` default_quality
            /\ NoDup (map file jobs) /\ NoDup (map segments jobs)
            /\ NoDup (map name jobs) /\ (length jobs <= 13)%nat).
  { intros jobs Hsub. split; [exact Hsub|].
    assert (Hnd : forall (g : Quality -> option string),
              NoDup (map g default_quality) -> NoDup (map g jobs)).
    { intros g. apply subsequence_NoDup. now apply subsequence_map. }
    split; [|split; [|split]].
    - apply Hnd. unfold default_quality, mkQuality; simpl.
      repeat (apply NoDup_cons; [simpl; intuition discriminate|]).
      apply NoDup_nil.
    - apply Hnd. unfold default_quality, mkQuality; simpl.
      repeat (apply NoDup_cons; [simpl; intuition discriminate|]).
      apply NoDup_nil.
    - apply Hnd. apply default_quality_valid.
    - change 13%nat with (length default_quality).
      clear Hnd. induction Hsub; simpl; lia. }
  assert (Hnil : ([] : list Quality) `subsequence_of` default_quality).
  { unfold default_quality. repeat constructor. }
  destruct (hlsConvert_outcomes inputFileName progressCallback
              resolutionArray video_id qualityArray)
    as [[f [Hr ->]] | [fq [Hr [-> | [-> | [[err [d [-> Hd]]]
                                           | [_ [_ [_ ->]]]]]]]]].
  - now apply Hladder.
  - now apply Hladder.
  - now apply Hladder.
  - destruct Hd as [-> | [_ ->]]; now apply Hladder.
  - destruct (encode_readings progressCallback
                (path_join w (inputFolder this) inputFileName)
                (uniqueOutputPath w this video_id) fq video_id)
      as [-> _].
    apply Hladder. eapply resolve_in_use_ladder; eassumption.
Qed.

Lemma encode_written progressCallback inputPath (uniq : string) finalQuality
  video_id :
  let call := encode w this progressCallback inputPath uniq finalQuality
                (made_dirs w this video_id) in
  written (fst call)
  = match snd call with
    | Ok _ => [(path_join w uniq "master.m3u8", masterPlaylist w finalQuality)]
    | Err _ => []
    end.
Proof.
  cbv zeta. rewrite encode_run. cbv zeta.
  destruct (made_dirs_only video_id) as [_ [Hd _]].
  destruct (runs_only inputPath uniq finalQuality) as [_ [Hr _]].
  destruct (ends_only progressCallback inputPath finalQuality) as [_ [_ He]].
  destruct (ffmpeg_settle w _); cbn [fst snd].
  - now rewrite written_app, Hd, Hr.
  - destruct (writeFileSync w _ _ _); cbn [fst snd];
      rewrite !written_app, Hd, Hr, He; reflexivity.
Qed.

(** X10. A call writes the master playlist exactly when it succeeds:
    once, as [master.m3u8] in the folder of the conversion, with the
    playlist of the resolved profiles; a call that is rejected has
    written no file. *)
Theorem playlist_written_iff_success inputFileName progressCallback
  resolutionArray video_id qualityArray :
  let call := run (hlsConvert w this inputFileName progressCallback
                     resolutionArray video_id qualityArray) in
  match snd call with
  | Ok _ =>
      exists finalQuality,
        resolve (catalog_in_use qualityArray) resolutionArray = Ok finalQuality
        /\ written (fst call)
           = [(path_join w (uniqueOutputPath w this video_id) "master.m3u8",
               masterPlaylist w finalQuality)]
  | Err _ => written (fst call) = []
  end.
Proof.
  cbv zeta.
  destruct (hlsConvert_outcomes inputFileName progressCallback
              resolutionArray video_id qualityArray)
    as [[f [Hr ->]] | [fq [Hr [-> | [-> | [[err [d [-> Hd]]]
                                           | [_ [_ [_ ->]]]]]]]]];
    try reflexivity.
  - now destruct Hd as [-> | [_ ->]].
  - rewrite encode_written.
    destruct (snd (encode w this progressCallback _ _ fq _));
      [exists fq; auto | reflexivity].
Qed.

End Calls.

(** * The converter as constructed *)

Section Construction.

Variable w : World.

(** X11. For a converter made by the constructor, a call that succeeds
    has tried to delete the input file exactly when the constructor was
    given a non-empty string as its cleanup setting; what it tries to
    delete is the input file, in the input folder given to the
    constructor. *)
Theorem cleanup_setting_decides (folder : string) (output : option string)
  (cleanUp : option (option string)) (inputFileName : string)
  (progressCallback : bool) (resolutionArray : option (list (option value)))
  (video_id : option string) (qualityArray : option (list Quality))
  (t : list Effect) :
  run (hlsConvert w (new_VideoConverter folder output cleanUp) inputFileName
         progressCallback resolutionArray video_id qualityArray) = (t, Ok tt) ->
  (unlinks t <> [] <-> exists s, cleanUp = Some (Some s) /\ s <> "")
  /\ forall p, In p (unlinks t) -> p = path_join w folder inputFileName.
Proof.
  set (this := new_VideoConverter folder output cleanUp).
  destruct (hlsConvert_outcomes w this inputFileName progressCallback
              resolutionArray video_id qualityArray)
    as [[f [Hr ->]] | [fq [Hr [-> | [-> | [[err [d [-> Hd]]]
                                           | [_ [_ [_ ->]]]]]]]]];
    try discriminate.
  intros Hcall.
  destruct (encode_readings w this progressCallback
              (path_join w (inputFolder this) inputFileName)
              (uniqueOutputPath w this video_id) fq video_id)
    as [_ [_ Hun]].
  rewrite Hcall in Hun. cbn [fst snd] in Hun. rewrite (Hun eq_refl).
  assert (Hne : fq <> []) by (eapply resolve_ok_nonempty; eassumption).
  change (inputFolder this) with folder.
  change (inputVideoCleanUp this)
    with (match cleanUp with Some c => c | None => None end).
  split.
  - destruct cleanUp as [[s|]|]; cbn [truthy].
    + destruct (s =? "")%string eqn:Hs; cbn [negb].
      * apply String.eqb_eq in Hs. subst s. split; [congruence|].
        intros [s [Heq Hs]]. congruence.
      * apply String.eqb_neq in Hs. split.
        -- intros _. now exists s.
        -- intros _. destruct fq; [congruence | discriminate].
    + split; [congruence|]. intros [s [Heq _]]. discriminate.
    + split; [congruence|]. intros [s [Heq _]]. discriminate.
  - intros p Hin. destruct (truthy _); [|destruct Hin].
    now apply repeat_spec in Hin.
Qed.

End Construction.

(** * Further properties of subset resolution *)

Section Requests.

Implicit Types (quality finalQuality : list Quality) (q : Quality)
  (res : value) (n : string).

(** The per-name check passes when every name is a string that matches. *)
Lemma check_names_ok quality (l : list value) :
  (forall res, In res l ->
     typeof_string res = true
     /\ existsb (fun q => strict_eq (of_field (name q)) res) quality = true) ->
  check_names quality l = Ok tt.
Proof.
  induction l as [|res rest IH]; intros Hall; [reflexivity|].
  destruct (Hall res (or_introl eq_refl)) as [Hty Hex].
  cbn [check_names]. rewrite Hty, Hex. cbn [negb].
  apply IH. intros v Hv. apply Hall. now right.
Qed.

Lemma matches_named quality res :
  typeof_string res = true ->
  existsb (fun q => strict_eq (of_field (name q)) res) quality = true ->
  exists n q, res = VString n /\ In q quality /\ name q = Some n.
Proof.
  destruct res as [| |b|z|n]; try discriminate. intros _ Hex.
  apply has_name_spec in Hex as [q [Hq Hn]]. now exists n, q.
Qed.

Lemma includes_same (l1 l2 : list value) v :
  (forall x, In x l1 -> In x l2) ->
  includes l1 v = true -> includes l2 v = true.
Proof.
  unfold includes. rewrite !existsb_exists.
  intros Hsub [x [Hx Heq]]. exists x. auto.
Qed.

Lemma filter_subsequence {A} (f g : A -> bool) (l : list A) :
  (forall x, f x = true -> g x = true) ->
  List.filter f l `subsequence_of` List.filter g l.
Proof.
  intros Himp. induction l as [|x l IH]; simpl; [constructor|].
  destruct (f x) eqn:Hf.
  - rewrite (Himp x Hf). now constructor.
  - destruct (g x); [now constructor | exact IH].
Qed.

Lemma read_incl (a1 a2 : list (option value)) :
  (forall slot, In slot a1 -> In slot a2) ->
  forall v, In v (read a1) -> In v (read a2).
Proof.
  intros Hsub v Hv. apply In_read. apply In_read in Hv as [Hv | [-> Hv]]; auto.
Qed.

Lemma holes_only (a : list (option value)) :
  a <> [] -> present a = [] -> In None a.
Proof.
  destruct a as [|[v|] a]; [congruence | discriminate | now left].
Qed.

(** X12. Subset resolution succeeds exactly when every element the
    request in force holds is a string that names a profile of the
    catalog, and the request holds at least one element (or, for a
    request of holes only, the catalog has a profile without a name,
    which a hole selects); it then returns the profiles of the catalog
    whose name is among what the request reads as, in catalog order.
    The request is any array, with or without holes. *)
Theorem resolve_succeeds_iff quality
  (resolutionArray : option (list (option value))) finalQuality :
  resolve quality resolutionArray = Ok finalQuality
  <-> (forall res, In (Some res) (requested resolutionArray) ->
         exists n q, res = VString n /\ In q quality /\ name q = Some n)
      /\ (present (requested resolutionArray) <> []
          \/ exists q, In q quality /\ name q = None)
      /\ finalQuality = select quality (read (requested resolutionArray)).
Proof.
  split.
  - intros Hr. assert (Hne := resolve_ok_nonempty _ _ _ Hr).
    destruct (resolve_ok_select _ _ _ Hr) as [-> [Hc _]].
    split; [|split; [|reflexivity]].
    + intros res Hin. apply In_present in Hin.
      destruct (check_names_all _ _ _ Hc Hin) as [Hty Hex].
      now apply matches_named.
    + destruct (present (requested resolutionArray)) as [|v l] eqn:Hp;
        [right | left; discriminate].
      destruct (select quality (read (requested resolutionArray)))
        as [|q l] eqn:Hsel; [congruence|].
      assert (Hq : In q (select quality (read (requested resolutionArray))))
        by (rewrite Hsel; now left).
      apply filter_In in Hq as [Hq Hinc].
      apply existsb_exists in Hinc as [v [Hv Heq]].
      apply In_read in Hv as [Hv | [-> _]].
      * apply In_present in Hv. rewrite Hp in Hv. destruct Hv.
      * exists q. split; [exact Hq|].
        destruct (name q); [discriminate Heq | reflexivity].
  - intros [Hall [Hsome ->]].
    assert (Hc : check_names quality (present (requested resolutionArray))
                 = Ok tt).
    { apply check_names_ok. intros res Hin. apply In_present in Hin.
      destruct (Hall res Hin) as [n [q [-> [Hq Hn]]]]. split; [reflexivity|].
      apply has_name_spec. eauto. }
    assert (Hstr : existsb (fun res => negb (typeof_string res))
                     (present (requested resolutionArray)) = false).
    { apply no_nonstring. intros res Hin. apply In_present in Hin.
      now destruct (Hall res Hin) as [n [q [-> _]]]. }
    assert (Hne : select quality (read (requested resolutionArray)) <> []).
    { assert (Hsel := select_nonempty _ _ Hc).
      destruct (present (requested resolutionArray)) as [|v l] eqn:Hp;
        [|apply Hsel; discriminate].
      destruct Hsome as [Hsome | [q [Hq Hn]]]; [congruence|].
      assert (Hhole : In None (requested resolutionArray)).
      { apply holes_only; [|exact Hp].
        assert (Hlen := requested_length resolutionArray).
        destruct (requested resolutionArray); [discriminate | discriminate]. }
      intros Hnil.
      assert (Hin : In q (select quality (read (requested resolutionArray)))).
      { apply filter_In. split; [exact Hq|].
        apply existsb_exists. exists VUndefined.
        split; [apply In_read; now right | now rewrite Hn]. }
      rewrite Hnil in Hin. destruct Hin. }
    unfold resolve. rewrite requested_length, Hstr, Hc.
    destruct (select quality (read (requested resolutionArray)));
      [congruence | reflexivity].
Qed.

(** X13. The order of the requested names and their repetitions do not
    matter to a request that succeeds: a request with the same content,
    in any order and any number of times, resolves to the same
    profiles. *)
Theorem request_order_irrelevant quality (r1 r2 : list (option value))
  finalQuality :
  (forall slot, In slot r1 <-> In slot r2) ->
  resolve quality (Some r1) = Ok finalQuality ->
  resolve quality (Some r2) = Ok finalQuality.
Proof.
  intros Hsame Hr.
  assert (Hreq : forall slot,
            In slot (requested (Some r1)) <-> In slot (requested (Some r2))).
  { destruct r1 as [|a r1], r2 as [|b r2]; try reflexivity.
    - destruct (proj2 (Hsame b) (or_introl eq_refl)).
    - destruct (proj1 (Hsame a) (or_introl eq_refl)).
    - exact Hsame. }
  clear Hsame. assert (Hne := resolve_ok_nonempty _ _ _ Hr).
  destruct (resolve_ok_select _ _ _ Hr) as [-> [Hc Hstr]].
  assert (Hpres : forall res, In res (present (requested (Some r2))) ->
                    In res (present (requested (Some r1)))).
  { intros res Hin. apply In_present. apply Hreq. now apply In_present. }
  assert (Hc2 : check_names quality (present (requested (Some r2))) = Ok tt).
  { apply check_names_ok. intros res Hin.
    apply (check_names_all _ _ _ Hc). now apply Hpres. }
  assert (Hstr2 : existsb (fun res => negb (typeof_string res))
                    (present (requested (Some r2))) = false).
  { apply no_nonstring. intros res Hin.
    apply (check_names_all _ _ _ Hc). now apply Hpres. }
  assert (Hsel : select quality (read (requested (Some r2)))
                 = select quality (read (requested (Some r1)))).
  { unfold select. apply filter_ext. intros q.
    destruct (includes (read (requested (Some r1))) (of_field (name q)))
      eqn:H1.
    - eapply includes_same; [|exact H1]. apply read_incl.
      intros x. apply Hreq.
    - destruct (includes (read (requested (Some r2))) (of_field (name q)))
        eqn:H2; [|reflexivity].
      rewrite <- H1. symmetry. eapply includes_same; [|exact H2].
      apply read_incl. intros x. apply Hreq. }
  unfold resolve. rewrite requested_length, Hstr2, Hc2, Hsel.
  destruct (select quality (read (requested (Some r1))));
    [congruence | reflexivity].
Qed.

(** X14. In a request made of strings, the name reported by the
    rejection is the first one, in request order, that names no profile
    of the catalog. *)
Theorem first_unmatched_name_reported quality (good : list string) (bad : string)
  (rest : list string) :
  (forall n, In n good -> exists q, In q quality /\ name q = Some n) ->
  (~ exists q, In q quality /\ name q = Some bad) ->
  resolve quality (Some (dense (map VString (good ++ bad :: rest))))
  = Err (ResolutionNoMatch (VString bad)
           (map (fun q => of_field (name q)) quality))
  /\ message (ResolutionNoMatch (VString bad)
                (map (fun q => of_field (name q)) quality))
     = ("Invalid resolution name: " ++ bad
        ++ ". It does not match any quality name. Valid names are "
        ++ String.concat ", " (map name_text quality) ++ ".")%string.
Proof.
  intros Hgood Hbad. split.
  - assert (Hc : check_names quality (map VString (good ++ bad :: rest))
                 = Err (ResolutionNoMatch (VString bad)
                          (map (fun q => of_field (name q)) quality))).
    { induction good as [|n good IH]; cbn [app map check_names typeof_string negb].
      - destruct (existsb (fun q => strict_eq (of_field (name q)) (VString bad))
                    quality) eqn:Hex; [|reflexivity].
        apply has_name_spec in Hex. contradiction.
      - assert (Hn : existsb (fun q => strict_eq (of_field (name q)) (VString n))
                       quality = true)
          by (apply has_name_spec, Hgood; now left).
        rewrite Hn. cbn [negb]. apply IH. intros m Hm. apply Hgood. now right. }
    unfold resolve. rewrite requested_length.
    rewrite requested_dense by (destruct good; discriminate).
    now rewrite present_dense, all_strings, Hc.
  - simpl. now rewrite join_names.
Qed.

(** X15. Asking for fewer names gives fewer profiles: when a request
    succeeds, every request that holds at least one element and nothing
    but content of the first succeeds too, and resolves to a part of the
    same profiles, in the same order. *)
Theorem fewer_names_fewer_profiles quality (r1 r2 : list (option value))
  finalQuality :
  present r1 <> [] ->
  (forall slot, In slot r1 -> In slot r2) ->
  resolve quality (Some r2) = Ok finalQuality ->
  exists part,
    resolve quality (Some r1) = Ok part
    /\ part `subsequence_of` finalQuality.
Proof.
  intros Hpres Hsub Hr.
  assert (Hne : r1 <> []) by (intros ->; now apply Hpres).
  assert (Hne2 : r2 <> []).
  { destruct r1 as [|a r1]; [congruence|]. intros ->.
    destruct (Hsub a (or_introl eq_refl)). }
  destruct (resolve_ok_select _ _ _ Hr) as [-> [Hc _]].
  rewrite requested_nonempty in * by assumption.
  assert (Hall : forall res, In res (present r1) ->
            typeof_string res = true
            /\ existsb (fun q => strict_eq (of_field (name q)) res) quality
               = true).
  { intros res Hin. apply (check_names_all _ _ _ Hc).
    apply In_present, Hsub. now apply In_present. }
  exists (select quality (read r1)). split.
  - assert (Hc1 : check_names quality (present (requested (Some r1))) = Ok tt).
    { rewrite requested_nonempty by assumption. now apply check_names_ok. }
    assert (Hsel : select quality (read (requested (Some r1))) <> []).
    { apply select_nonempty; [exact Hc1|].
      now rewrite requested_nonempty by assumption. }
    unfold resolve. rewrite requested_length, Hc1.
    rewrite requested_nonempty in * by assumption.
    rewrite no_nonstring.
    + destruct (select quality (read r1)); [congruence | reflexivity].
    + intros res Hin. now apply Hall.
  - unfold select. apply filter_subsequence. intros q.
    apply includes_same. now apply read_incl.
Qed.

End Requests.

(** * The ladder in the master playlist *)

Section Ladder.

Variable w : World.

Lemma subsequence_of_map {A B} (g : A -> B) (l1 : list B) (l2 : list A) :
  l1 `subsequence_of` map g l2 ->
  exists l, l1 = map g l /\ l `subsequence_of` l2.
Proof.
  revert l1. induction l2 as [|x l2 IH]; intros l1 Hsub; simpl in Hsub.
  - inversion Hsub; subst. exists []. split; [reflexivity | constructor].
  - inversion Hsub as [|y k1 k2 Hk|y k1 k2 Hk]; subst.
    + destruct (IH _ Hk) as [l [-> Hl]]. exists (x :: l).
      split; [reflexivity | now constructor].
    + destruct (IH _ Hk) as [l [-> Hl]]. exists l.
      split; [reflexivity | now constructor].
Qed.

Lemma subsequence_Forall {A} (P : A -> Prop) (l1 l2 : list A) :
  l1 `subsequence_of` l2 -> Forall P l2 -> Forall P l1.
Proof.
  induction 1 as [|x l1 l2 Hsub IH|x l1 l2 Hsub IH]; intros Hall.
  - constructor.
  - inversion Hall; subst. constructor; auto.
  - inversion Hall; subst. auto.
Qed.

Lemma subsequence_StronglySorted {A} (R : A -> A -> Prop) (l1 l2 : list A) :
  l1 `subsequence_of` l2 -> StronglySorted R l2 -> StronglySorted R l1.
Proof.
  induction 1 as [|x l1 l2 Hsub IH|x l1 l2 Hsub IH]; intros Hs.
  - constructor.
  - inversion Hs; subst. constructor; auto.
    eapply subsequence_Forall; eassumption.
  - inversion Hs; subst. auto.
Qed.

Lemma ladder_bandwidths_sorted : StronglySorted Z.lt ladder_bandwidths.
Proof.
  unfold ladder_bandwidths.
  repeat (apply SSorted_cons;
          [|repeat (apply Forall_cons; [lia|]); apply Forall_nil]).
  apply SSorted_nil.
Qed.

Lemma combine_fst_snd {A B} (l : list (A * B)) :
  combine (map fst l) (map snd l) = l.
Proof. induction l as [|[a b] l IH]; [reflexivity|]. cbn. now rewrite IH. Qed.

Lemma entries_of_pairs (pairs : list (Quality * Z)) :
  Forall (fun qb => bandwidth w (fst qb) = decimal (snd qb)) pairs ->
  map (playlist_entry w) (map fst pairs)
  = map (fun qb =>
           "#EXT-X-STREAM-INF:BANDWIDTH=" ++ decimal (snd qb)
           ++ ",RESOLUTION=" ++ to_string (of_field (resolution (fst qb)))
           ++ LF ++ to_string (of_field (file (fst qb))))%string
      pairs.
Proof.
  induction 1 as [|qb l Hqb _ IH]; [reflexivity|].
  cbn [map]. rewrite IH. f_equal.
  unfold playlist_entry, stream_inf. rewrite Hqb.
  now rewrite <- !string_app_assoc.
Qed.

(** X16. The variants of the master playlist a call writes are listed
    by strictly increasing bandwidth, each a whole number of bits per
    second between 100000 and 14000000, whatever names were requested and
    in whatever order. *)
Theorem playlist_bandwidths_ascending qualityArray resolutionArray
  (finalQuality : list Quality) :
  resolve (catalog_in_use qualityArray) resolutionArray = Ok finalQuality ->
  exists bps : list Z,
    map (bandwidth w) finalQuality = map decimal bps
    /\ StronglySorted Z.lt bps
    /\ Forall (fun b => 100000 <= b <= 14000000)%Z bps
    /\ masterPlaylist w finalQuality
       = (masterPlaylistHeader
          ++ String.concat LF
               (map (fun qb =>
                       "#EXT-X-STREAM-INF:BANDWIDTH=" ++ decimal (snd qb)
                       ++ ",RESOLUTION=" ++ to_string (of_field (resolution (fst qb)))
                       ++ LF ++ to_string (of_field (file (fst qb))))
                  (combine finalQuality bps)))%string.
Proof.
  intros Hr.
  assert (Hsub : finalQuality `subsequence_of` default_quality).
  { destruct (resolve_ok_select _ _ _ Hr) as [-> _].
    destruct qualityArray as [[|q0 l0]|]; cbn [catalog_in_use] in *;
      try apply select_subsequence.
    apply resolve_ok_nonempty in Hr. now elim Hr. }
  assert (Hmap := subsequence_map (fun q => (q, bandwidth w q)) _ _ Hsub).
  assert (Hladder : map (fun q => (q, bandwidth w q)) default_quality
                    = map (fun qb => (fst qb, decimal (snd qb)))
                        (combine default_quality ladder_bandwidths))
    by reflexivity.
  rewrite Hladder in Hmap. clear Hladder.
  apply subsequence_of_map in Hmap as [pairs [Hpairs Hsubp]].
  exists (map snd pairs).
  assert (Hfst : map fst pairs = finalQuality).
  { apply (f_equal (map fst)) in Hpairs. rewrite !map_map in Hpairs.
    cbn [fst] in Hpairs. rewrite map_id in Hpairs. symmetry. exact Hpairs. }
  assert (Hbw : map (bandwidth w) finalQuality = map decimal (map snd pairs)).
  { apply (f_equal (map snd)) in Hpairs. rewrite !map_map in Hpairs.
    cbn [snd] in Hpairs. rewrite map_map. exact Hpairs. }
  split; [exact Hbw|]. split; [|split].
  - apply (subsequence_map snd) in Hsubp.
    eapply subsequence_StronglySorted; [exact Hsubp|].
    apply ladder_bandwidths_sorted.
  - apply (subsequence_map snd) in Hsubp.
    eapply subsequence_Forall; [exact Hsubp|].
    cbn. repeat (apply Forall_cons; [lia|]). apply Forall_nil.
  - unfold masterPlaylist, masterPlaylistContent. f_equal. f_equal.
    rewrite <- Hfst, combine_fst_snd.
    apply entries_of_pairs.
    eapply subsequence_Forall; [exact Hsubp|].
    cbn. repeat (apply Forall_cons; [reflexivity|]). apply Forall_nil.
Qed.

End Ladder.

(** * The handlers of one job *)

Section Handlers.

Variable this : VideoConverter.

Implicit Types (events : list JobEvent) (q : Quality) (inputPath : string).

Lemma percents_app (t u : list Effect) :
  percents (t ++ u) = percents t ++ percents u.
Proof. apply flat_map_app. Qed.

Lemma job_effects_app progressCallback inputPath q events later :
  job_effects this progressCallback inputPath q (events ++ later)
  = job_effects this progressCallback inputPath q events
    ++ job_effects this progressCallback inputPath q later.
Proof. apply flat_map_app. Qed.

(** Before ['end'] and ['error'], the callback is passed the floors of
    the percents reported, and nothing is deleted. *)
Lemma running_job inputPath q events :
  Forall (fun ev => terminal ev = false) events ->
  percents (job_effects this true inputPath q events)
  = map Qfloor (reports_of events)
  /\ (forall progressCallback,
        unlinks (job_effects this progressCallback inputPath q events) = [])
  /\ percents (job_effects this false inputPath q events) = []
  /\ forall later, job_settles (events ++ later) = job_settles later.
Proof.
  induction 1 as [|ev events Hev _ [IH1 [IH2 [IH3 IH4]]]];
    [repeat split|].
  unfold job_effects, reports_of in *. cbn [flat_map].
  rewrite !percents_app, IH1, IH3.
  split; [|split; [|split]].
  - destruct ev as [c|[x|]|l| |e]; try discriminate; reflexivity.
  - intros cb. rewrite unlinks_app, IH2.
    destruct ev as [c|[x|]|l| |e]; try discriminate; try reflexivity.
    now destruct cb.
  - destruct ev as [c|[x|]|l| |e]; try discriminate; reflexivity.
  - intros later. destruct ev as [c|[x|]|l| |e]; try discriminate;
      apply IH4.
Qed.

Lemma floors_sorted (l : list Q) :
  StronglySorted Qle l -> StronglySorted Z.le (map Qfloor l).
Proof.
  induction 1 as [|x l _ IH Hall]; cbn [map]; constructor; auto.
  apply Forall_map. eapply Forall_impl; [|exact Hall].
  intros y Hy. now apply Qfloor_resp_le.
Qed.

Lemma floors_in_range (l : list Q) :
  Forall (fun x => 0 <= x <= 100)%Q l ->
  Forall (fun p => 0 <= p <= 100)%Z (map Qfloor l).
Proof.
  intros Hall. apply Forall_map. eapply Forall_impl; [|exact Hall].
  intros x [H0 H100]. split.
  - change 0%Z with (Qfloor 0). now apply Qfloor_resp_le.
  - change 100%Z with (Qfloor 100). now apply Qfloor_resp_le.
Qed.

Lemma sorted_snoc (l : list Z) (top : Z) :
  StronglySorted Z.le l -> Forall (fun p => p <= top)%Z l ->
  StronglySorted Z.le (l ++ [top]).
Proof.
  induction 1 as [|x l _ IH Hall]; intros Htop; cbn [app].
  - repeat constructor.
  - inversion Htop; subst. constructor; auto.
    apply Forall_app. split; [exact Hall | now constructor].
Qed.

(** X17. A job whose reported percents never decrease and stay between
    0 and 100, and which then ends, resolves its promise, and the
    callback has been passed whole percents that never decrease, stay
    between 0 and 100 and finish with 100: the floor of each percent
    reported, then 100 at the end.  A report without a number is passed
    over, and without a callback nothing is reported. *)
Theorem job_progress_stream inputPath q events :
  Forall (fun ev => terminal ev = false) events ->
  StronglySorted Qle (reports_of events) ->
  Forall (fun x => 0 <= x <= 100)%Q (reports_of events) ->
  let seen := percents (job_effects this true inputPath q (events ++ [OnEnd])) in
  job_settles (events ++ [OnEnd]) = Some (Ok tt)
  /\ seen = map Qfloor (reports_of events) ++ [100%Z]
  /\ StronglySorted Z.le seen
  /\ Forall (fun p => 0 <= p <= 100)%Z seen
  /\ Forall2 (fun p x => inject_Z p <= x < inject_Z (p + 1))%Q
       (removelast seen) (reports_of events)
  /\ percents (job_effects this false inputPath q (events ++ [OnEnd])) = [].
Proof.
  intros Hrun Hsorted Hrange. cbv zeta.
  destruct (running_job inputPath q events Hrun) as [Hp [_ [Hnone Hsettle]]].
  rewrite !job_effects_app, !percents_app, Hp, Hnone, Hsettle.
  assert (Hend : percents (job_effects this true inputPath q [OnEnd]) = [100%Z]).
  { unfold job_effects, end_effects. cbn.
    now destruct (truthy (inputVideoCleanUp this)). }
  assert (Hend' : percents (job_effects this false inputPath q [OnEnd]) = []).
  { unfold job_effects, end_effects. cbn.
    now destruct (truthy (inputVideoCleanUp this)). }
  rewrite Hend, Hend'.
  assert (Hfl := floors_in_range _ Hrange).
  split; [reflexivity|]. split; [reflexivity|]. split; [|split; [|split]].
  - apply sorted_snoc; [now apply floors_sorted|].
    eapply Forall_impl; [|exact Hfl]. intros p [_ Hp']. exact Hp'.
  - apply Forall_app. split; [exact Hfl|]. constructor; [lia | constructor].
  - rewrite removelast_last. clear.
    induction (reports_of events) as [|x l IH]; cbn [map]; constructor; auto.
    split; [apply Qfloor_le | apply Qlt_floor].
  - reflexivity.
Qed.

(** X18. The handlers of a job that fails before it ends reject its
    promise with the error of ffmpeg, try no deletion and never report
    100 on their own: the callback has only been passed the floors of
    the percents reported. *)
Theorem failed_job_keeps_input progressCallback inputPath q events (err : string) :
  Forall (fun ev => terminal ev = false) events ->
  job_settles (events ++ [OnError err]) = Some (Err (EncoderError err))
  /\ unlinks (job_effects this progressCallback inputPath q
                (events ++ [OnError err])) = []
  /\ percents (job_effects this true inputPath q (events ++ [OnError err]))
     = map Qfloor (reports_of events).
Proof.
  intros Hrun.
  destruct (running_job inputPath q events Hrun) as [Hp [Hun [_ Hsettle]]].
  rewrite !job_effects_app, unlinks_app, percents_app, Hp, Hun, Hsettle.
  cbn. now rewrite app_nil_r.
Qed.

End Handlers.

Lemma check_failures_leave_nothing_witness :
  fst (run (hlsConvert example_world example_converter "absent.mp4" true
              (Some (dense [VString "360"])) None None)) = [].
Proof.
  apply (check_failures_leave_nothing example_world example_converter
           "absent.mp4" true (Some (dense [VString "360"])) None None
           (InputMissing "video/absent.mp4")).
  - reflexivity.
  - right. right. reflexivity.
Defined.

Lemma call_succeeds_iff_witness :
  snd (run (hlsConvert example_world example_converter "input.mp4" true None
              (Some "run1") None)) = Ok tt.
Proof.
  apply (proj2 (call_succeeds_iff example_world example_converter "input.mp4"
                  true None (Some "run1") None)).
  exists (select default_quality default_resolution).
  cbv zeta. repeat split. discriminate.
Defined.

Lemma encoder_failure_witness :
  let call :=
    run (hlsConvert (failing_world "ffmpeg exited with code 1")
           example_converter "input.mp4" true
           (Some (dense [VString "720"; VString "360"])) (Some "run1") None) in
  snd call = Err (EncoderError "ffmpeg exited with code 1")
  /\ launched (fst call) = [q360; q720]
  /\ written (fst call) = [].
Proof.
  apply (encoder_failure (failing_world "ffmpeg exited with code 1")
           example_converter "input.mp4" true
           (Some (dense [VString "720"; VString "360"])) (Some "run1") None
           [q360; q720] "ffmpeg exited with code 1");
    [reflexivity | discriminate | reflexivity | reflexivity | reflexivity].
Defined.


Lemma no_cleanup_no_unlink_witness :
  unlinks (fst (run (hlsConvert example_world
                       (new_VideoConverter "video" (Some "hls") (Some (Some "")))
                       "input.mp4" true None (Some "run1") None))) = [].
Proof.
  apply (no_cleanup_no_unlink example_world
           (new_VideoConverter "video" (Some "hls") (Some (Some "")))
           "input.mp4" true None (Some "run1") None).
  reflexivity.
Defined.

Lemma cleanup_once_per_job_witness :
  let t := fst (run (hlsConvert example_world
                       (new_VideoConverter "video" None (Some (Some "true")))
                       "input.mp4" false
                       (Some (dense [VString "360"; VString "720"])) (Some "run1")
                       None)) in
  unlinks t = ["video/input.mp4"; "video/input.mp4"]
  /\ (1 <= length (unlinks t) <= 13)%nat.
Proof.
  apply (cleanup_once_per_job example_world
           (new_VideoConverter "video" None (Some (Some "true")))
           "input.mp4" false (Some (dense [VString "360"; VString "720"]))
           (Some "run1") None [q360; q720]); reflexivity.
Defined.

Lemma request_order_irrelevant_witness :
  resolve default_quality
    (Some (dense [VString "360"; VString "720"; VString "360"]))
  = Ok [q360; q720].
Proof.
  apply (request_order_irrelevant default_quality
           (dense [VString "720"; VString "360"])
           (dense [VString "360"; VString "720"; VString "360"]) [q360; q720]).
  - intros res. simpl. tauto.
  - reflexivity.
Defined.

Lemma first_unmatched_name_reported_witness :
  resolve default_quality
    (Some (dense (map VString (["360"] ++ "999" :: ["4k"; "720"]))))
  = Err (ResolutionNoMatch (VString "999")
           (map (fun q => of_field (name q)) default_quality)).
Proof.
  apply (first_unmatched_name_reported default_quality ["360"] "999"
           ["4k"; "720"]).
  - intros n [<- | []]. exists q360. split; [|reflexivity].
    unfold default_quality. simpl. tauto.
  - intros [q [Hq Hn]]. unfold default_quality in Hq. simpl in Hq.
    repeat (destruct Hq as [<- | Hq]; [discriminate Hn|]). destruct Hq.
Defined.

Lemma fewer_names_fewer_profiles_witness :
  exists part,
    resolve default_quality (Some [None; Some (VString "720")]) = Ok part
    /\ part `subsequence_of` [q360; q720].
Proof.
  apply (fewer_names_fewer_profiles default_quality
           [None; Some (VString "720")]
           [Some (VString "360"); None; Some (VString "720")] [q360; q720]).
  - discriminate.
  - intros res [<- | [<- | []]]; simpl; tauto.
  - reflexivity.
Defined.

Lemma playlist_bandwidths_ascending_witness :
  exists bps : list Z,
    map (bandwidth example_world) [q360; q720] = map decimal bps
    /\ StronglySorted Z.lt bps
    /\ Forall (fun b => 100000 <= b <= 14000000)%Z bps
    /\ masterPlaylist example_world [q360; q720]
       = (masterPlaylistHeader
          ++ String.concat LF
               (map (fun qb =>
                       "#EXT-X-STREAM-INF:BANDWIDTH=" ++ decimal (snd qb)
                       ++ ",RESOLUTION=" ++ to_string (of_field (resolution (fst qb)))
                       ++ LF ++ to_string (of_field (file (fst qb))))
                  (combine [q360; q720] bps)))%string.
Proof.
  apply (playlist_bandwidths_ascending example_world None
           (Some (dense [VString "720"; VString "360"])) [q360; q720]).
  reflexivity.
Defined.

Lemma job_progress_stream_witness :
  let events :=
    [OnStart "ffmpeg -i video/input.mp4"; OnProgress (Some (25 # 2)%Q);
     OnProgress None; OnStderr "frame=  100"; OnProgress (Some (999 # 10)%Q)] in
  let seen := percents (job_effects example_converter true "video/input.mp4"
                          q360 (events ++ [OnEnd])) in
  job_settles (events ++ [OnEnd]) = Some (Ok tt)
  /\ seen = [12; 99; 100]%Z.
Proof.
  cbv zeta.
  destruct (job_progress_stream example_converter "video/input.mp4" q360
              [OnStart "ffmpeg -i video/input.mp4"; OnProgress (Some (25 # 2)%Q);
               OnProgress None; OnStderr "frame=  100";
               OnProgress (Some (999 # 10)%Q)])
    as [Hsettles [Hseen _]].
  - repeat constructor.
  - cbn. repeat constructor. unfold Qle. simpl. lia.
  - cbn. repeat constructor; unfold Qle; simpl; lia.
  - split; [exact Hsettles | exact Hseen].
Defined.

Lemma failed_job_keeps_input_witness :
  job_settles ([OnProgress (Some (40 # 1)%Q)] ++ [OnError "ffmpeg exited with code 1"])
  = Some (Err (EncoderError "ffmpeg exited with code 1"))
  /\ unlinks (job_effects (new_VideoConverter "video" None (Some (Some "true")))
                true "video/input.mp4" q360
                ([OnProgress (Some (40 # 1)%Q)]
                 ++ [OnError "ffmpeg exited with code 1"])) = []
  /\ percents (job_effects (new_VideoConverter "video" None (Some (Some "true")))
                 true "video/input.mp4" q360
                 ([OnProgress (Some (40 # 1)%Q)]
                  ++ [OnError "ffmpeg exited with code 1"]))
     = map Qfloor (reports_of [OnProgress (Some (40 # 1)%Q)]).
Proof.
  apply (failed_job_keeps_input
           (new_VideoConverter "video" None (Some (Some "true"))) true
           "video/input.mp4" q360 [OnProgress (Some (40 # 1)%Q)]
           "ffmpeg exited with code 1").
  repeat constructor.
Defined.

Lemma cleanup_setting_decides_witness :
  let t := fst (run (hlsConvert example_world
                       (new_VideoConverter "video" None (Some (Some "true")))
                       "input.mp4" false None (Some "run1") None)) in
  (unlinks t <> [] <-> exists s, Some (Some "true") = Some (Some s) /\ s <> "")
  /\ forall p, In p (unlinks t) -> p = "video/input.mp4".
Proof.
  apply (cleanup_setting_decides example_world "video" None
           (Some (Some "true")) "input.mp4" false None (Some "run1") None).
  reflexivity.
Defined.
